(** * CRUD feature endpoints of the Hono backend: listing, adding, editing

    A shallow embedding of the endpoint templates of the backend feature
    skill (`list-<entities>.ts`, `add-<entity>.ts`, `edit-<entity>.ts`,
    `schemas.ts`) over a model of the PostgreSQL table they query through
    Drizzle.  Handlers are written in a small state-and-exception monad: the
    state is the table together with a journal of the statements sent to it,
    an exception is a rejected `await` on the database client. *)

From Stdlib Require Import List ZArith Lia Bool Arith String Ascii QArith Qround Permutation.
Import ListNotations.

Open Scope Z_scope.

(** ** Text: SQL LIKE patterns and substrings *)

Definition text := list ascii.

Definition percent : ascii := "%"%char.
Definition underscore : ascii := "_"%char.
Definition backslash : ascii := "\"%char.

(** PostgreSQL's [LIKE]: [%] stands for any run of characters, [_] for any
    one character, a backslash makes the next pattern character literal, every
    other character stands for itself, upper and lower case being different
    characters.  The whole value has to be matched.  (A pattern that ends right
    after a backslash is an error in PostgreSQL; here it matches nothing, and
    [dangling_escape] below tells such patterns.) *)
Fixpoint like_match (p : text) : text -> bool :=
  match p with
  | [] => fun s => match s with [] => true | _ :: _ => false end
  | c :: p' =>
      if Ascii.eqb c percent then
        fix any (s : text) : bool :=
          like_match p' s || match s with [] => false | _ :: s' => any s' end
      else if Ascii.eqb c underscore then
        fun s => match s with [] => false | _ :: s' => like_match p' s' end
      else if Ascii.eqb c backslash then
        match p' with
        | [] => fun _ => false
        | d :: p'' =>
            fun s => match s with
                     | [] => false
                     | x :: s' => Ascii.eqb x d && like_match p'' s'
                     end
        end
      else
        fun s => match s with
                 | [] => false
                 | x :: s' => Ascii.eqb x c && like_match p' s'
                 end
  end.

(** The pattern ends right after an escaping backslash, the one pattern
    PostgreSQL refuses. *)
Fixpoint dangling_escape (p : text) : bool :=
  match p with
  | [] => false
  | c :: p' =>
      if Ascii.eqb c backslash then
        match p' with [] => true | _ :: p'' => dangling_escape p'' end
      else dangling_escape p'
  end.

(** A character that [LIKE] reads as itself. *)
Definition plain (c : ascii) : bool :=
  negb (Ascii.eqb c percent || Ascii.eqb c underscore || Ascii.eqb c backslash).

Fixpoint starts_with (needle hay : text) : bool :=
  match needle, hay with
  | [], _ => true
  | _ :: _, [] => false
  | a :: needle', b :: hay' => Ascii.eqb b a && starts_with needle' hay'
  end.

(** [contains needle hay]: [needle] occurs somewhere inside [hay]. *)
Fixpoint contains (needle hay : text) : bool :=
  starts_with needle hay ||
  match hay with [] => false | _ :: hay' => contains needle hay' end.

Definition lower (c : ascii) : ascii :=
  let n := nat_of_ascii c in
  if (Nat.leb 65 n && Nat.leb n 90)%bool then ascii_of_nat (n + 32) else c.

(** The name filter in the words of the specification: a case-insensitive
    substring match on the text field. *)
Definition spec_name_filter (needle hay : string) : bool :=
  contains (map lower (list_ascii_of_string needle))
           (map lower (list_ascii_of_string hay)).

(** The pattern the list endpoint builds: [`%${name}%`]. *)
Definition name_pattern (name : string) : string :=
  ("%" ++ name ++ "%")%string.

Definition like_string (value pattern : string) : bool :=
  like_match (list_ascii_of_string pattern) (list_ascii_of_string value).

(** ** HTTP vocabulary *)

(** The members of `StatusCodes` (package `http-status-codes`) the endpoints
    answer with. *)
Inductive StatusCodes : Type :=
| OK | CREATED | NO_CONTENT.

Definition status_number (s : StatusCodes) : Z :=
  match s with OK => 200 | CREATED => 201 | NO_CONTENT => 204 end.

(** What makes an awaited database call reject. *)
Inductive StoreError : Type :=
| Unavailable (reason : string)
| UniqueViolation (key : string)
| NegativeRowCount.

(** Outcome of an `async` handler: it resolves with a value or rejects. *)
Inductive Completion (A : Type) : Type :=
| Resolved (a : A)
| Rejected (e : StoreError).
Arguments Resolved {A} a.
Arguments Rejected {A} e.

(** An `async` computation over a state [S]: run from a state, it resolves or
    rejects and leaves a state behind. *)
Definition Async (S A : Type) : Type := S -> Completion A * S.

Definition ret {S A} (a : A) : Async S A := fun w => (Resolved a, w).

(** `const x = await m; k(x)`: a rejection of [m] skips [k]. *)
Definition bind {S A B} (m : Async S A) (k : A -> Async S B) : Async S B :=
  fun w =>
    match m w with
    | (Resolved a, w') => k a w'
    | (Rejected e, w') => (Rejected e, w')
    end.

Definition throw {S A} (e : StoreError) : Async S A := fun w => (Rejected e, w).

Notation "x <- m ;; k" := (bind m (fun x => k))
  (at level 61, m at next level, right associativity).

Definition Uuid := string.

(** PostgreSQL reads a `uuid` whatever the case of its hexadecimal digits and
    prints it in lower case. *)
Definition canonical (id : string) : Uuid :=
  string_of_list_ascii (map lower (list_ascii_of_string id)).

(** ** Pagination (`pagination.ts`) *)

(** A query-string value as the pagination schema sees it after numeric
    coercion: the parameter is missing, is not a number, or is a number. *)
Inductive QueryNumber : Type :=
| Missing
| NotANumber
| Numeric (q : Q).

Definition is_integer (q : Q) : bool := Qeq_bool q (inject_Z (Qfloor q)).

(** Bounds the pagination schema is configured with; [None] is no bound. *)
Record PaginationLimits : Type := {
  maxPageNumber : option Z;
  maxPageSize : option Z
}.

Definition within (bound : option Z) (n : Z) : bool :=
  match bound with None => true | Some m => n <=? m end.

(** Modelled from the spec: `paginationSchema` of `pagination.ts` is absent;
    one field of it, "positive integer" with a default and an optional cap. *)
Definition positive_integer (default : Z) (bound : option Z) (v : QueryNumber)
  : option Z :=
  match v with
  | Missing => Some default
  | NotANumber => None
  | Numeric q =>
      if (is_integer q && (1 <=? Qfloor q) && within bound (Qfloor q))%bool
      then Some (Qfloor q) else None
  end.

Definition is_hex (c : ascii) : bool :=
  let n := nat_of_ascii c in
  ((48 <=? n) && (n <=? 57) || (65 <=? n) && (n <=? 70)
   || (97 <=? n) && (n <=? 102))%nat.

Definition is_variant (c : ascii) : bool :=
  existsb (Ascii.eqb c) (list_ascii_of_string "89abAB").

(** The shape `z.uuidv7()` accepts: 8-4-4-4-12 hexadecimal digits, the
    version digit 7, the variant digit one of 8, 9, a, b. *)
Definition uuidv7_position (i : nat) (c : ascii) : bool :=
  if (Nat.eqb i 8 || Nat.eqb i 13 || Nat.eqb i 18 || Nat.eqb i 23)%bool
  then Ascii.eqb c "-"%char
  else if Nat.eqb i 14 then Ascii.eqb c "7"%char
  else if Nat.eqb i 19 then is_variant c
  else is_hex c.

Fixpoint all_positions (check : nat -> ascii -> bool) (i : nat) (s : text)
  : bool :=
  match s with
  | [] => true
  | c :: s' => check i c && all_positions check (S i) s'
  end.

Definition is_uuidv7 (s : string) : bool :=
  (Nat.eqb (String.length s) 36
   && all_positions uuidv7_position 0 (list_ascii_of_string s))%bool.

(** Ceiling of the quotient, for a positive divisor. *)
Definition ceiling_div (a b : Z) : Z := - ((- a) / b).

Section Feature.

(** The columns of the entity beyond `<entityId>` and `name`
    ("... other fields" of the template). *)
Variable Others : Type.

(** A row of the `<entities>` table; `<entity>Schema` mirrors every column. *)
Record Entity : Type := {
  entityId : Uuid;
  name : string;
  others : Others
}.

(** `Add<Entity>`: the entity schema with `<entityId>` omitted. *)
Record AddEntity : Type := {
  add_name : string;
  add_others : Others
}.

(** `Edit<Entity>`: the editable fields picked from the entity schema. *)
Record EditEntity : Type := {
  edit_name : string;
  edit_others : Others
}.

(** `Page<T>` at `T := Entity`. *)
Record Page : Type := {
  items : list Entity;
  totalCount : Z;
  pageNumber : Z;
  pageSize : Z;
  totalPages : Z
}.

(** Modelled from the spec: `createPage` of `pagination.ts` is absent; it
    assembles
    [{ items, totalCount, pageNumber, pageSize, totalPages: ceil(totalCount / pageSize) }]. *)
Definition createPage (its : list Entity) (total pn ps : Z) : Page :=
  {| items := its;
     totalCount := total;
     pageNumber := pn;
     pageSize := ps;
     totalPages := ceiling_div total ps |}.

(** `List<Entities>`: the validated query of the list endpoint. *)
Record ListEntities : Type := {
  list_pageNumber : Z;
  list_pageSize : Z;
  list_name : option string
}.

(** The query string of a list request before validation. *)
Record RawListQuery : Type := {
  raw_pageNumber : QueryNumber;
  raw_pageSize : QueryNumber;
  raw_name : option string
}.

(** Modelled from the spec: `paginationSchema` is absent (page number a
    positive integer, default 1; page size a positive integer, default 10,
    capped); `list<Entities>Schema` extends it with the optional [name]. *)
Definition listEntitiesSchema (limits : PaginationLimits) (raw : RawListQuery)
  : option ListEntities :=
  match positive_integer 1 (maxPageNumber limits) (raw_pageNumber raw),
        positive_integer 10 (maxPageSize limits) (raw_pageSize raw) with
  | Some pn, Some ps =>
      Some {| list_pageNumber := pn; list_pageSize := ps;
              list_name := raw_name raw |}
  | _, _ => None
  end.

(** A JSON request body: an object that may carry any of the entity's keys,
    an `<entityId>` of the client's choosing included. *)
Record RawBody : Type := {
  body_entityId : option string;
  body_name : option string;
  body_others : option Others
}.

(** `z.string().min(1).max(1024)` *)
Definition valid_name (s : string) : bool :=
  ((1 <=? String.length s) && (String.length s <=? 1024))%nat.

(** `add<Entity>Schema = <entity>Schema.omit({ <entityId>: true })`: an object
    schema keeps the keys it declares and drops the others, so the parsed
    value has no `<entityId>`, whatever the body carried. *)
Definition addEntitySchema (body : RawBody) : option AddEntity :=
  match body_name body, body_others body with
  | Some n, Some o =>
      if valid_name n then Some {| add_name := n; add_others := o |} else None
  | _, _ => None
  end.

(** `edit<Entity>Schema = <entity>Schema.pick({ name: true /* ... */ })`: the
    name and, behind the ellipsis, the other columns (the todo form edits
    `name` and `completed`); never the key. *)
Definition editEntitySchema (body : RawBody) : option EditEntity :=
  match body_name body, body_others body with
  | Some n, Some o =>
      if valid_name n then Some {| edit_name := n; edit_others := o |} else None
  | _, _ => None
  end.

(** `paramSchema = <entity>Schema.pick({ <entityId>: true })`, a `z.uuidv7()`. *)
Definition paramSchema (param : string) : option Uuid :=
  if is_uuidv7 param then Some param else None.

(** ** The table and the statements sent to it *)

(** The columns the endpoints name in conditions: `<entityId>`, a `uuid`,
    and `name`, a `varchar`. *)
Inductive Column : Type := col_entityId | col_name.

Definition column_value (c : Column) (r : Entity) : string :=
  match c with col_entityId => entityId r | col_name => name r end.

(** A value compared with a column is read at the column's type. *)
Definition cast (c : Column) (v : string) : string :=
  match c with col_entityId => canonical v | col_name => v end.

(** Conditions built with Drizzle's `like`, `eq` and `and`. *)
#[warnings="-register-all"] Inductive SQL : Type :=
| like (c : Column) (pattern : string)
| eq_ (c : Column) (value : string)
| and_all (conditions : list SQL).

(** `and(...conditions)`: `undefined` for no condition (the query then has
    no WHERE clause), the condition itself for one, their conjunction
    otherwise. *)
Definition and_ (conditions : list SQL) : option SQL :=
  match conditions with
  | [] => None
  | [c] => Some c
  | _ => Some (and_all conditions)
  end.

Fixpoint eval (c : SQL) (r : Entity) : bool :=
  match c with
  | like col pattern => like_string (column_value col r) pattern
  | eq_ col v => String.eqb (column_value col r) (cast col v)
  | and_all cs => forallb (fun c' => eval c' r) cs
  end.

(** A row satisfies `.where(w)`. *)
Definition satisfies (w : option SQL) (r : Entity) : bool :=
  match w with None => true | Some c => eval c r end.

(** The four statements the endpoints build.  None has an ORDER BY: the
    handlers never call `.orderBy(...)`. *)
Inductive Statement : Type :=
| SelectCount (where_ : option SQL)
| Select (where_ : option SQL) (limit : Z) (offset : option Z)
| Insert (values : Entity)
| Update (set : EditEntity) (where_ : option SQL).

(** What the handlers cannot control.  [scanStart n] is the position in the
    table at which PostgreSQL begins the scan of the [n]-th statement (a
    query without ORDER BY returns rows in the order the scan meets them, and
    a synchronised sequential scan begins wherever the ongoing one is, wrapping
    around); [fault n] makes the [n]-th statement fail; [v7 k] is what the
    [k]-th call of `v7()` returns. *)
Record Env : Type := {
  scanStart : nat -> nat;
  fault : nat -> option StoreError;
  v7 : nat -> Uuid
}.

(** The state the handlers run against: the rows of the table, the
    statements sent to the database so far, and the number of identifiers
    `v7()` has handed out. *)
Record World : Type := {
  rows : list Entity;
  journal : list Statement;
  minted : nat
}.

(** Rows in the order a scan beginning at position [k] meets them. *)
Definition scan (k : nat) (table : list Entity) : list Entity :=
  skipn k table ++ firstn k table.

(** Send a statement: it is journalled, and fails if the environment says
    so.  Resolves with the statement's sequence number. *)
Definition issue (env : Env) (st : Statement) : Async World nat :=
  fun w =>
    let n := List.length (journal w) in
    let w' := {| rows := rows w; journal := journal w ++ [st];
                 minted := minted w |} in
    match fault env n with
    | Some e => (Rejected e, w')
    | None => (Resolved n, w')
    end.

Definition table : Async World (list Entity) := fun w => (Resolved (rows w), w).

Definition store (table' : list Entity) : Async World unit :=
  fun w => (Resolved tt, {| rows := table'; journal := journal w;
                            minted := minted w |}).

(** `client.select({ totalCount: count() }).from(t).where(w)` *)
Definition selectCount (env : Env) (w : option SQL) : Async World Z :=
  _ <- issue env (SelectCount w) ;;
  t <- table ;;
  ret (Z.of_nat (List.length (filter (satisfies w) t))).

Definition negative (n : option Z) : bool :=
  match n with None => false | Some z => z <? 0 end.

Definition skip (offset : option Z) (l : list Entity) : list Entity :=
  match offset with None => l | Some o => skipn (Z.to_nat o) l end.

(** `client.select().from(t).where(w).limit(l).offset(o)`: the rows that
    satisfy [w], in scan order, without the first [o], at most [l] of them.
    PostgreSQL refuses a negative LIMIT or OFFSET. *)
Definition select (env : Env) (w : option SQL) (limit : Z) (offset : option Z)
  : Async World (list Entity) :=
  n <- issue env (Select w limit offset) ;;
  if (limit <? 0) || negative offset then throw NegativeRowCount
  else
    t <- table ;;
    ret (firstn (Z.to_nat limit)
           (skip offset (filter (satisfies w) (scan (scanStart env n) t)))).

(** The row's key is the identifier [id]. *)
Definition has_key (id : Uuid) (r : Entity) : bool :=
  String.eqb (entityId r) (canonical id).

(** The row as the table keeps it and gives it back. *)
Definition stored (v : Entity) : Entity :=
  {| entityId := canonical (entityId v); name := name v; others := others v |}.

(** `client.insert(t).values(v).returning()`; `<entityId>` is the primary
    key, so a row whose key is taken is refused.  (The columns are taken to
    be wide enough for what the schemas admit.) *)
Definition insert (env : Env) (v : Entity) : Async World (list Entity) :=
  _ <- issue env (Insert v) ;;
  t <- table ;;
  if existsb (has_key (entityId v)) t then throw (UniqueViolation (entityId v))
  else
    _ <- store (t ++ [stored v]) ;;
    ret [stored v].

(** `.set(data)` on one row. *)
Definition assign (data : EditEntity) (r : Entity) : Entity :=
  {| entityId := entityId r; name := edit_name data;
     others := edit_others data |}.

(** `client.update(t).set(data).where(w).returning()` *)
Definition update (env : Env) (data : EditEntity) (w : option SQL)
  : Async World (list Entity) :=
  n <- issue env (Update data w) ;;
  t <- table ;;
  _ <- store (map (fun r => if satisfies w r then assign data r else r) t) ;;
  ret (map (assign data)
         (filter (satisfies w) (scan (scanStart env n) t))).

(** `v7()` of package `uuid`. *)
Definition mint (env : Env) : Async World Uuid :=
  fun w => (Resolved (v7 env (minted w)),
            {| rows := rows w; journal := journal w;
               minted := S (minted w) |}).

(** ** Responses and validation *)

(** What an endpoint answers: `c.json(page, status)`, `c.json(item, status)`
    (an [item] of [None] is `undefined`), or one of the error helpers of
    `extensions.ts`. *)
Inductive Response : Type :=
| json_page (p : Page) (status : StatusCodes)
| json_item (item : option Entity) (status : StatusCodes)
| notFoundError (detail : string)
| validationError.

(** Modelled from the spec: `zValidator` of `validator.ts` is absent; a
    request that fails its schema is answered with a validation error at
    once, before the handler runs and before any store access. *)
Definition zValidator {Raw Valid : Type} (schema : Raw -> option Valid)
  (raw : Raw) (handler : Valid -> Async World Response)
  : Async World Response :=
  match schema raw with
  | Some valid => handler valid
  | None => ret validationError
  end.

(** ** The endpoints *)

(** `if (name)`: defined and not the empty string. *)
Definition truthy (s : option string) : option string :=
  match s with
  | Some EmptyString => None
  | _ => s
  end.

(** `list-<entities>.ts` *)
Definition listRoute (limits : PaginationLimits) (env : Env)
  (query : RawListQuery) : Async World Response :=
  zValidator (listEntitiesSchema limits) query (fun valid =>
    let pageNumber := list_pageNumber valid in
    let pageSize := list_pageSize valid in
    let filters : list SQL := [] in
    let offset := (pageNumber - 1) * pageSize in
    let filters :=
      match truthy (list_name valid) with
      | Some name => filters ++ [like col_name (name_pattern name)]
      | None => filters
      end in
    totalCount <- selectCount env (and_ filters) ;;
    items <- select env (and_ filters) pageSize (Some offset) ;;
    ret (json_page (createPage items totalCount pageNumber pageSize) OK)).

(** `add-<entity>.ts` *)
Definition addRoute (env : Env) (body : RawBody) : Async World Response :=
  zValidator addEntitySchema body (fun data =>
    id <- mint env ;;
    inserted <- insert env {| entityId := id; name := add_name data;
                              others := add_others data |} ;;
    ret (json_item (hd_error inserted) CREATED)).

Definition not_found (id : Uuid) : string :=
  ("Entity " ++ id ++ " not found")%string.

(** `edit-<entity>.ts` *)
Definition editRoute (env : Env) (param : string) (body : RawBody)
  : Async World Response :=
  zValidator paramSchema param (fun entityId =>
  zValidator editEntitySchema body (fun data =>
    existing <- select env (Some (eq_ col_entityId entityId)) 1 None ;;
    if Nat.eqb (List.length existing) 0 then
      ret (notFoundError (not_found entityId))
    else
      updated <- update env data (Some (eq_ col_entityId entityId)) ;;
      ret (json_item (hd_error updated) OK))).

End Feature.

Arguments entityId {Others} _.
Arguments name {Others} _.
Arguments others {Others} _.
Arguments Build_Entity {Others} _ _ _.
Arguments items {Others} _.
Arguments totalCount {Others} _.
Arguments pageNumber {Others} _.
Arguments pageSize {Others} _.
Arguments totalPages {Others} _.
Arguments createPage {Others} _ _ _ _.
Arguments rows {Others} _.
Arguments journal {Others} _.
Arguments minted {Others} _.
Arguments Build_World {Others} _ _ _.
Arguments satisfies {Others} _ _.
Arguments SelectCount {Others} _.
Arguments Select {Others} _ _ _.
Arguments Insert {Others} _.
Arguments Update {Others} _ _.
Arguments scan {Others} _ _.
Arguments skip {Others} _ _.
Arguments has_key {Others} _ _.
Arguments stored {Others} _.
Arguments assign {Others} _ _.
Arguments json_page {Others} _ _.
Arguments json_item {Others} _ _.
Arguments notFoundError {Others} _.
Arguments validationError {Others}.
Arguments addEntitySchema {Others} _.
Arguments editEntitySchema {Others} _.
Arguments listRoute {Others} _ _ _ _.
Arguments addRoute {Others} _ _ _.
Arguments editRoute {Others} _ _ _ _.
Arguments selectCount {Others} _ _ _.
Arguments select {Others} _ _ _ _ _.
Arguments insert {Others} _ _ _.
Arguments update {Others} _ _ _ _.
Arguments issue {Others} _ _ _.
Arguments mint {Others} _ _.

(** ** Notions the theorems are stated with *)

(** The rows a list request with name filter [filter] ranges over. *)
Definition name_matches {Others} (filter : option string) (r : Entity Others)
  : bool :=
  match filter with
  | None => true
  | Some EmptyString => true
  | Some s => like_string (name r) (name_pattern s)
  end.

Definition matching {Others} (filter : option string) (t : list (Entity Others))
  : list (Entity Others) :=
  List.filter (name_matches filter) t.

(** The query string asking for page [pn] of size [ps]. *)
Definition page_query (pn ps : Z) (filter : option string) : RawListQuery :=
  {| raw_pageNumber := Numeric (inject_Z pn);
     raw_pageSize := Numeric (inject_Z ps);
     raw_name := filter |}.

(** The items of a response that carries a page. *)
Definition page_items {Others} (r : Response Others) : list (Entity Others) :=
  match r with json_page p _ => items p | _ => [] end.

(** Requests served one after the other. *)
Fixpoint serve {S A} (requests : list (Async S A)) : Async S (list A) :=
  match requests with
  | [] => ret []
  | m :: rest => a <- m ;; others <- serve rest ;; ret (a :: others)
  end.

(** The request for page [i] of size [ps]. *)
Definition page_request {Others} (limits : PaginationLimits) (env : Env)
  (ps : Z) (filter : option string) (i : nat)
  : Async (World Others) (Response Others) :=
  listRoute limits env (page_query (Z.of_nat i) ps filter).

(** Pages [1 .. n] of size [ps] requested in turn. *)
Definition crawl {Others} (limits : PaginationLimits) (env : Env) (ps : Z)
  (filter : option string) (n : nat)
  : Async (World Others) (list (Response Others)) :=
  serve (map (page_request limits env ps filter) (seq 1 n)).

(** No statement fails. *)
Definition reliable (env : Env) : Prop := forall n, fault env n = None.

(** Every scan begins at position [k]. *)
Definition steady (env : Env) (k : nat) : Prop := forall n, scanStart env n = k.

(** A pagination value the specification calls invalid: not a number, not an
    integer, not positive, or above the configured maximum. *)
Definition out_of_range (bound : option Z) (v : QueryNumber) : Prop :=
  match v with
  | Missing => False
  | NotANumber => True
  | Numeric q =>
      is_integer q = false \/ (q <= 0)%Q \/
      match bound with Some m => (inject_Z m < q)%Q | None => False end
  end.

(** The world once statement [st] has been sent. *)
Definition sent {Others} (w : World Others) (st : Statement Others)
  : World Others :=
  {| rows := rows w; journal := journal w ++ [st]; minted := minted w |}.

(** The WHERE clause of both queries of a list request. *)
Definition list_where (filter : option string) : option SQL :=
  and_ match truthy filter with
       | Some s => [like col_name (name_pattern s)]
       | None => []
       end.

(** The window a list request cuts out of the matching rows, as scanned from
    position [k]. *)
Definition window {Others} (k : nat) (pn ps : Z) (filter : option string)
  (t : list (Entity Others)) : list (Entity Others) :=
  firstn (Z.to_nat ps)
    (skipn (Z.to_nat ((pn - 1) * ps)) (matching filter (scan k t))).

(** The page a list request is answered with when nothing fails. *)
Definition answer {Others} (env : Env) (w : World Others) (v : ListEntities)
  : Page Others :=
  createPage
    (window (scanStart env (S (List.length (journal w))))
       (list_pageNumber v) (list_pageSize v) (list_name v) (rows w))
    (Z.of_nat (List.length (matching (list_name v) (rows w))))
    (list_pageNumber v) (list_pageSize v).

(** The world a list request leaves behind when nothing fails. *)
Definition queried {Others} (w : World Others) (v : ListEntities)
  : World Others :=
  sent (sent w (SelectCount (list_where (list_name v))))
       (Select (list_where (list_name v)) (list_pageSize v)
          (Some ((list_pageNumber v - 1) * list_pageSize v))).

(** ** A concrete feature: todos, whose one further column is `completed` *)

Definition Todo : Type := Entity bool.

Definition todo (id : Uuid) (n : string) (completed : bool) : Todo :=
  {| entityId := id; name := n; others := completed |}.

Definition milk : Todo :=
  todo "0190a6f0-7b3c-7d2e-8f1a-000000000001"%string "Buy Milk" false.

Definition dog : Todo :=
  todo "0190a6f0-7b3c-7d2e-8f1a-000000000002"%string "walk dog" true.

Definition two_todos : World bool :=
  {| rows := [milk; dog]; journal := []; minted := 0 |}.

Definition limits100 : PaginationLimits :=
  {| maxPageNumber := None; maxPageSize := Some 100 |}.

(** A database that never fails and always scans from the first row. *)
Definition calm : Env :=
  {| scanStart := fun _ => 0%nat;
     fault := fun _ => None;
     v7 := fun _ => "0190a6f0-7b3c-7d2e-8f1a-000000000003"%string |}.

(** A database that never fails, whose fourth statement is scanned from the
    second row on. *)
Definition restless : Env :=
  {| scanStart := fun n => if Nat.eqb n 3 then 1%nat else 0%nat;
     fault := fun _ => None;
     v7 := fun _ => "0190a6f0-7b3c-7d2e-8f1a-000000000003"%string |}.

(** A database whose second statement fails. *)
Definition flaky : Env :=
  {| scanStart := fun _ => 0%nat;
     fault := fun n => if Nat.eqb n 1 then Some (Unavailable "timeout") else None;
     v7 := fun _ => "0190a6f0-7b3c-7d2e-8f1a-000000000003"%string |}.

(** The first page of size one, unfiltered, as a validated query. *)
Definition first_of_one : ListEntities :=
  {| list_pageNumber := 1; list_pageSize := 1; list_name := None |}.

(** The second page of size one, unfiltered, as a validated query. *)
Definition second_of_one : ListEntities :=
  {| list_pageNumber := 2; list_pageSize := 1; list_name := None |}.

(** The fifth page of size ten, unfiltered: beyond the last page of two rows. *)
Definition fifth_of_ten : ListEntities :=
  {| list_pageNumber := 5; list_pageSize := 10; list_name := None |}.

(** The first page of size ten of the rows named like "dog". *)
Definition dogs : ListEntities :=
  {| list_pageNumber := 1; list_pageSize := 10; list_name := Some "dog"%string |}.

(** An add request that tries to choose its own key. *)
Definition feed_cat : RawBody bool :=
  {| body_entityId := Some "0190a6f0-7b3c-7d2e-8f1a-00000000ffff"%string;
     body_name := Some "Feed cat"%string;
     body_others := Some false |}.

(** An edit request body. *)
Definition walked : RawBody bool :=
  {| body_entityId := None;
     body_name := Some "walk dog twice"%string;
     body_others := Some true |}.

(** ** The get and delete endpoints, and the routes together *)

Section MoreEndpoints.

Variable Others : Type.

(** `get-<entity>.ts` *)
Definition getRoute (env : Env) (param : string)
  : Async (World Others) (Response Others) :=
  zValidator Others paramSchema param (fun entityId =>
    found <- select env (Some (eq_ col_entityId entityId)) 1 None ;;
    match hd_error found with
    | None => ret (notFoundError (not_found entityId))
    | Some item => ret (json_item (Some item) OK)
    end).

(** The state of the feature once rows can be deleted: the world of the
    other endpoints and the DELETE statements sent so far. *)
Record Ledger : Type := {
  world : World Others;
  deleted : list (option SQL)
}.

(** An endpoint of the other four, run on the ledger. *)
Definition on_table {A} (m : Async (World Others) A) : Async Ledger A :=
  fun l =>
    match m (world l) with
    | (r, w') => (r, {| world := w'; deleted := deleted l |})
    end.

(** `client.delete(t).where(w)`: the statement is recorded and fails if
    [deleteFault] says so for its number among the DELETE statements;
    otherwise the rows that satisfy [w] are gone. *)
Definition delete (deleteFault : nat -> option StoreError) (w : option SQL)
  : Async Ledger unit :=
  fun l =>
    let recorded := deleted l ++ [w] in
    match deleteFault (List.length (deleted l)) with
    | Some e => (Rejected e, {| world := world l; deleted := recorded |})
    | None =>
        (Resolved tt,
         {| world := {| rows := filter (fun r => negb (satisfies w r))
                                  (rows (world l));
                        journal := journal (world l);
                        minted := minted (world l) |};
            deleted := recorded |})
    end.

(** What the feature answers: a response of the other four endpoints, or
    `c.body(null, status)`. *)
Inductive Reply : Type :=
| reply (r : Response Others)
| body_null (status : StatusCodes).

(** `delete-<entity>.ts`; the parameter is validated as by [zValidator]. *)
Definition deleteRoute (env : Env) (deleteFault : nat -> option StoreError)
  (param : string) : Async Ledger Reply :=
  match paramSchema param with
  | None => ret (reply validationError)
  | Some entityId =>
      existing <- on_table
                    (select env (Some (eq_ col_entityId entityId)) 1 None) ;;
      match hd_error existing with
      | None => ret (reply (notFoundError (not_found entityId)))
      | Some _ =>
          _ <- delete deleteFault (Some (eq_ col_entityId entityId)) ;;
          ret (body_null NO_CONTENT)
      end
  end.

(** A request the aggregated route of `routes.ts` hands to an endpoint:
    GET `/`, POST `/`, GET `/:id`, PUT `/:id`, DELETE `/:id`. *)
Inductive Call : Type :=
| call_list (query : RawListQuery)
| call_add (body : RawBody Others)
| call_get (param : string)
| call_edit (param : string) (body : RawBody Others)
| call_delete (param : string).

(** `routes.ts`: `<entity>Route`, with the delete endpoint registered. *)
Definition entityRoute (limits : PaginationLimits) (env : Env)
  (deleteFault : nat -> option StoreError) (c : Call) : Async Ledger Reply :=
  match c with
  | call_list query => r <- on_table (listRoute limits env query) ;; ret (reply r)
  | call_add body => r <- on_table (addRoute env body) ;; ret (reply r)
  | call_get param => r <- on_table (getRoute env param) ;; ret (reply r)
  | call_edit param body =>
      r <- on_table (editRoute env param body) ;; ret (reply r)
  | call_delete param => deleteRoute env deleteFault param
  end.

(** The ledger after the calls have been served one after the other; a
    rejected call does not stop the server. *)
Fixpoint session (limits : PaginationLimits) (env : Env)
  (deleteFault : nat -> option StoreError) (calls : list Call) (l : Ledger)
  : Ledger :=
  match calls with
  | [] => l
  | c :: rest =>
      session limits env deleteFault rest
        (snd (entityRoute limits env deleteFault c l))
  end.

Definition is_delete (c : Call) : bool :=
  match c with call_delete _ => true | _ => false end.

Definition is_add (c : Call) : bool :=
  match c with call_add _ => true | _ => false end.

(** The keys of the rows of the ledger's table. *)
Definition keys (l : Ledger) : list Uuid := map entityId (rows (world l)).

End MoreEndpoints.

Arguments getRoute {Others} _ _ _.
Arguments world {Others} _.
Arguments deleted {Others} _.
Arguments Build_Ledger {Others} _ _.
Arguments on_table {Others A} _ _.
Arguments delete {Others} _ _ _.
Arguments reply {Others} _.
Arguments body_null {Others} _.
Arguments deleteRoute {Others} _ _ _ _.
Arguments call_list {Others} _.
Arguments call_add {Others} _.
Arguments call_get {Others} _.
Arguments call_edit {Others} _ _.
Arguments call_delete {Others} _.
Arguments entityRoute {Others} _ _ _ _ _.
Arguments session {Others} _ _ _ _ _.
Arguments is_delete {Others} _.
Arguments is_add {Others} _.
Arguments keys {Others} _.

(** The outcome of a call that did not succeed: a rejection, a not-found
    error or a validation error. *)
Definition unsuccessful {Others} (o : Completion (Reply Others)) : bool :=
  match o with
  | Rejected _ => true
  | Resolved (reply (notFoundError _)) => true
  | Resolved (reply validationError) => true
  | Resolved _ => false
  end.

(** The ledger of a world no DELETE has been sent to. *)
Definition fresh_ledger {Others} (w : World Others) : Ledger Others :=
  {| world := w; deleted := [] |}.

(** No DELETE statement fails. *)
Definition deletes_work : nat -> option StoreError := fun _ => None.

(** ** File uploads: the form schema and the S3 helper *)

(** A `File` of the Web API: name, MIME type and content; its `size` is
    the number of bytes of the content. *)
Record File : Type := {
  file_name : string;
  file_type : string;
  file_content : list Byte.byte
}.

Definition file_size (f : File) : Z := Z.of_nat (List.length (file_content f)).

Definition MAX_FILE_SIZE : Z := 50 * 1024 * 1024.

Definition ALLOWED_MIME_TYPES : list string :=
  ["image/jpeg"; "image/png"; "image/gif"; "image/webp"; "application/pdf";
   "application/msword";
   "application/vnd.openxmlformats-officedocument.wordprocessingml.document"
  ]%string.

(** `ALLOWED_MIME_TYPES.includes(file.type)` *)
Definition includes (l : list string) (s : string) : bool :=
  existsb (String.eqb s) l.

(** The `file` field of `formSchema`: the messages of the refinements the
    file fails, in the order of the chain; the file is accepted when there
    is none. *)
Definition file_issues (f : File) : list string :=
  (if file_size f <=? MAX_FILE_SIZE then []
   else ["File size must not exceed 50MB"%string]) ++
  (if includes ALLOWED_MIME_TYPES (file_type f) then []
   else ["File type must be an image, PDF, or Word document"%string]) ++
  (if (String.length (file_name f) <=? 250)%nat then []
   else ["File name must not exceed 250 characters"%string]).

(** `s.split(sep)` for a one-character separator: never the empty array. *)
Fixpoint split_on (sep : ascii) (s : text) : list text :=
  match s with
  | [] => [[]]
  | c :: s' =>
      if Ascii.eqb c sep then [] :: split_on sep s'
      else match split_on sep s' with
           | [] => [[c]]
           | seg :: rest => (c :: seg) :: rest
           end
  end.

Definition dot : ascii := "."%char.

(** `file.name.split('.').pop()` *)
Definition fileExtension (name : string) : string :=
  string_of_list_ascii (last (split_on dot (list_ascii_of_string name)) []).

(** The content type `uploadFile` gives the object. *)
Definition contentType (f : File) : string :=
  if (negb (String.eqb (file_type f) EmptyString)
      && (0 <? String.length (file_type f))%nat
      && (String.length (file_type f) <=? 255)%nat)%bool
  then file_type f
  else "application/octet-stream"%string.

(** What a `PutObjectCommand` stores under a key. *)
Record S3Object : Type := {
  Body : list Byte.byte;
  ContentType : string
}.

(** The bucket, the number of commands sent to S3 and the number of
    identifiers `v7()` has handed out for object names. *)
Record Storage : Type := {
  objects : list (string * S3Object);
  commands : nat;
  named : nat
}.

Definition other_key (key : string) (entry : string * S3Object) : bool :=
  negb (String.eqb (fst entry) key).

(** The object under [key], if any. *)
Definition object_at (key : string) (st : Storage) : option S3Object :=
  match find (fun entry => String.eqb (fst entry) key) (objects st) with
  | Some entry => Some (snd entry)
  | None => None
  end.

(** `s3Client.send(command)`: the command is counted and fails if the
    environment says so; otherwise the bucket becomes [after]. *)
Definition send (env : Env) (after : list (string * S3Object)) : Async Storage unit :=
  fun st =>
    match fault env (commands st) with
    | Some e => (Rejected e, {| objects := objects st;
                                commands := S (commands st);
                                named := named st |})
    | None => (Resolved tt, {| objects := after;
                               commands := S (commands st);
                               named := named st |})
    end.

(** `uploadFile(file, parentId)` of `s3-client.ts` *)
Definition uploadFile (env : Env) (file : File) (parentId : string)
  : Async Storage string :=
  fun st =>
    let extension := fileExtension (file_name file) in
    let filePath :=
      (parentId ++ "/" ++ v7 env (named st) ++ "." ++ extension)%string in
    let st1 := {| objects := objects st; commands := commands st;
                  named := S (named st) |} in
    (_ <- send env ((filePath, {| Body := file_content file;
                                  ContentType := contentType file |})
                    :: filter (other_key filePath) (objects st)) ;;
     ret filePath) st1.

(** `deleteFile(filePath)` of `s3-client.ts` *)
Definition deleteFile (env : Env) (filePath : string) : Async Storage unit :=
  fun st => send env (filter (other_key filePath) (objects st)) st.

(** ** The search bar of the todo list *)

(** A `URLSearchParams`: its entries in order. *)
Definition SearchParams : Type := list (string * string).

(** `params.get(key)`: the value of the first entry with that key. *)
Definition params_get (key : string) (p : SearchParams) : option string :=
  match find (fun entry => String.eqb (fst entry) key) p with
  | Some entry => Some (snd entry)
  | None => None
  end.

(** `params.delete(key)`: every entry with that key goes. *)
Definition params_delete (key : string) (p : SearchParams) : SearchParams :=
  filter (fun entry => negb (String.eqb (fst entry) key)) p.

(** `params.set(key, value)`: the first entry with that key takes the value
    and the later ones go; without such an entry one is appended. *)
Fixpoint params_set (key value : string) (p : SearchParams) : SearchParams :=
  match p with
  | [] => [(key, value)]
  | entry :: rest =>
      if String.eqb (fst entry) key then (key, value) :: params_delete key rest
      else entry :: params_set key value rest
  end.

(** `TodoSearchBar`: the text in the input and the search parameters of the
    location. *)
Record SearchBar : Type := {
  typed : string;
  searchParams : SearchParams
}.

(** The bar as first rendered: `useState(searchParams.get('name') ?? '')`. *)
Definition mount (p : SearchParams) : SearchBar :=
  {| typed := match params_get "name" p with
              | Some n => n
              | None => EmptyString
              end;
     searchParams := p |}.

(** `onChange={e => setName(e.target.value)}` *)
Definition type_text (text : string) (bar : SearchBar) : SearchBar :=
  {| typed := text; searchParams := searchParams bar |}.

(** `handleSearch` *)
Definition handleSearch (bar : SearchBar) : SearchBar :=
  {| typed := typed bar;
     searchParams :=
       params_set "page" "1"
         (match typed bar with
          | EmptyString => params_delete "name" (searchParams bar)
          | name => params_set "name" name (searchParams bar)
          end) |}.

(** `handleClear` *)
Definition handleClear (bar : SearchBar) : SearchBar :=
  {| typed := EmptyString;
     searchParams :=
       params_set "page" "1" (params_delete "name" (searchParams bar)) |}.

(** `showClearButton={!!name}` *)
Definition showClearButton (bar : SearchBar) : bool :=
  match typed bar with EmptyString => false | _ => true end.

(** The name `TodoTable` asks the list for:
    `searchParams.get('name') ?? ''`. *)
Definition table_name (p : SearchParams) : string :=
  match params_get "name" p with Some n => n | None => EmptyString end.

(** ** More examples on the todos *)

(** A well-formed key that no todo has. *)
Definition no_such_id : string := "0190a6f0-7b3c-7d2e-8f1a-000000000009".

(** The key of [dog], written in upper case. *)
Definition DOG_ID : string := "0190A6F0-7B3C-7D2E-8F1A-000000000002".

(** A database that never fails and whose `v7()` hands out the key of
    [milk]. *)
Definition stuck : Env :=
  {| scanStart := fun _ => 0%nat;
     fault := fun _ => None;
     v7 := fun _ => entityId milk |}.

(** A get, an add, an edit, a list and a delete, in turn. *)
Definition busy_day : list (Call bool) :=
  [call_get no_such_id; call_add feed_cat; call_edit DOG_ID walked;
   call_list (page_query 1 10 None); call_delete DOG_ID].

Definition quiet_day : list (Call bool) :=
  [call_get no_such_id; call_edit DOG_ID walked;
   call_list (page_query 1 10 None)].

(** A small PDF. *)
Definition report : File :=
  {| file_name := "report.final.pdf";
     file_type := "application/pdf";
     file_content := [Byte.x25; Byte.x50; Byte.x44; Byte.x46] |}.

Definition empty_bucket : Storage :=
  {| objects := []; commands := 0; named := 0 |}.

(** A bucket the next command to which is the second one. *)
Definition used_bucket : Storage :=
  {| objects := []; commands := 1; named := 1 |}.

(** ** Facts about LIKE *)

Lemma like_match_nil (s : text) :
  like_match [] s = match s with [] => true | _ :: _ => false end.
Proof. reflexivity. Qed.

Lemma like_match_percent (p s : text) :
  like_match (percent :: p) s =
  like_match p s ||
  match s with [] => false | _ :: s' => like_match (percent :: p) s' end.
Proof. destruct s; reflexivity. Qed.

Lemma like_match_plain (c : ascii) (p s : text) :
  plain c = true ->
  like_match (c :: p) s =
  match s with [] => false | x :: s' => Ascii.eqb x c && like_match p s' end.
Proof.
  unfold plain. intros H. apply negb_true_iff in H.
  apply orb_false_iff in H as [H Hb]. apply orb_false_iff in H as [Hp Hu].
  simpl. rewrite Hp, Hu, Hb. reflexivity.
Qed.

(** [%] followed by [p] matches [s] exactly when [p] matches a suffix of [s]. *)
Lemma like_percent_iff (p s : text) :
  like_match (percent :: p) s = true <->
  exists pre post, s = pre ++ post /\ like_match p post = true.
Proof.
  induction s as [|x s IH]; rewrite like_match_percent.
  - rewrite orb_false_r. split.
    + intros H. exists [], []. auto.
    + intros (pre & post & E & H). symmetry in E.
      apply app_eq_nil in E as [_ ->]. exact H.
  - rewrite orb_true_iff, IH. split.
    + intros [H | (pre & post & -> & H)].
      * exists [], (x :: s). auto.
      * exists (x :: pre), post. auto.
    + intros (pre & post & E & H). destruct pre as [|y pre]; simpl in E.
      * left. now subst post.
      * right. injection E as -> ->. eauto.
Qed.

(** Plain characters match themselves and nothing else. *)
Lemma like_literal_iff (lit p s : text) :
  forallb plain lit = true ->
  like_match (lit ++ p) s = true <->
  exists rest, s = lit ++ rest /\ like_match p rest = true.
Proof.
  revert s. induction lit as [|c lit IH]; intros s Hlit; simpl app.
  - split; [intros H; exists s; auto | intros (rest & -> & H); exact H].
  - simpl in Hlit. apply andb_true_iff in Hlit as [Hc Hlit].
    rewrite like_match_plain by exact Hc. destruct s as [|x s].
    + split; [discriminate | intros (rest & E & _); discriminate].
    + rewrite andb_true_iff, Ascii.eqb_eq, (IH s Hlit). split.
      * intros (-> & rest & -> & H). eauto.
      * intros (rest & E & H). injection E as -> ->. eauto.
Qed.

Lemma like_percent_only (s : text) : like_match [percent] s = true.
Proof.
  apply like_percent_iff. exists s, []. rewrite app_nil_r. auto.
Qed.

Lemma starts_with_iff (needle hay : text) :
  starts_with needle hay = true <-> exists post, hay = needle ++ post.
Proof.
  revert hay. induction needle as [|a needle IH]; intros hay; simpl.
  - split; eauto.
  - destruct hay as [|b hay].
    + split; [discriminate | intros (post & E); discriminate].
    + rewrite andb_true_iff, Ascii.eqb_eq, IH. split.
      * intros (-> & post & ->). eauto.
      * intros (post & E). injection E as -> ->. eauto.
Qed.

Lemma contains_iff (needle hay : text) :
  contains needle hay = true <-> exists pre post, hay = pre ++ needle ++ post.
Proof.
  induction hay as [|b hay IH]; simpl; rewrite orb_true_iff, starts_with_iff.
  - split.
    + intros [(post & E) | H]; [exists [], post; exact E | discriminate].
    + intros (pre & post & E). left. destruct pre; [eauto | discriminate].
  - rewrite IH. split.
    + intros [(post & E) | (pre & post & ->)].
      * exists [], post. exact E.
      * exists (b :: pre), post. reflexivity.
    + intros (pre & post & E). destruct pre as [|y pre]; simpl in E.
      * left. eauto.
      * right. injection E as -> ->. eauto.
Qed.

(** A pattern [%lit%] of plain characters is the substring test. *)
Lemma like_plain_contains (lit s : text) :
  forallb plain lit = true ->
  like_match (percent :: lit ++ [percent]) s = true <->
  exists pre post, s = pre ++ lit ++ post.
Proof.
  intros Hlit. rewrite like_percent_iff. split.
  - intros (pre & rest & -> & H).
    apply (like_literal_iff lit [percent] rest Hlit) in H as (post & -> & _).
    eauto.
  - intros (pre & post & ->). exists pre, (lit ++ post). split; [reflexivity|].
    apply (like_literal_iff lit [percent] _ Hlit). exists post.
    split; [reflexivity | apply like_percent_only].
Qed.

Lemma list_ascii_of_string_app (a b : string) :
  list_ascii_of_string (a ++ b) =
  list_ascii_of_string a ++ list_ascii_of_string b.
Proof. induction a as [|c a IH]; simpl; [reflexivity | now rewrite IH]. Qed.

Lemma string_of_list_ascii_app (a b : text) :
  string_of_list_ascii (a ++ b) =
  (string_of_list_ascii a ++ string_of_list_ascii b)%string.
Proof. induction a as [|c a IH]; simpl; [reflexivity | now rewrite IH]. Qed.

(** A pattern that ends in [%] never ends right after an escape: the
    patterns of the list endpoint are never refused. *)
Lemma no_dangling_escape (p : text) :
  dangling_escape (p ++ [percent]) = false /\
  forall c, dangling_escape (c :: p ++ [percent]) = false.
Proof.
  induction p as [|a p [IH1 IH2]].
  - split; [reflexivity|]. intros c. simpl.
    destruct (Ascii.eqb c backslash); reflexivity.
  - split; [apply IH2|]. intros c. cbn [app].
    change (dangling_escape (c :: a :: p ++ [percent]))
      with (if Ascii.eqb c backslash then dangling_escape (p ++ [percent])
            else dangling_escape (a :: p ++ [percent])).
    destruct (Ascii.eqb c backslash); [exact IH1 | apply IH2].
Qed.

Lemma name_pattern_text (s : string) :
  list_ascii_of_string (name_pattern s) =
  percent :: list_ascii_of_string s ++ [percent].
Proof.
  unfold name_pattern. simpl. now rewrite list_ascii_of_string_app.
Qed.

(** ** Facts about the table *)

Section TableFacts.

Variable Others : Type.
Implicit Types (w : World Others) (t l : list (Entity Others)) (env : Env).

Lemma scan_permutation k t : Permutation (scan k t) t.
Proof.
  unfold scan. rewrite <- (firstn_skipn k t) at 3. apply Permutation_app_comm.
Qed.

Lemma filter_scan_length (f : Entity Others -> bool) k t :
  List.length (filter f (scan k t)) = List.length (filter f t).
Proof.
  unfold scan. rewrite <- (firstn_skipn k t) at 3.
  rewrite !filter_app, !length_app. lia.
Qed.

Lemma filter_permutation (f : Entity Others -> bool) l l' :
  Permutation l l' -> Permutation (filter f l) (filter f l').
Proof.
  induction 1 as [|x l l' _ IH|x y l|l l' l'' _ IH1 _ IH2]; simpl.
  - constructor.
  - destruct (f x); [now constructor | exact IH].
  - destruct (f x), (f y); try apply Permutation_refl; apply perm_swap.
  - now transitivity (filter f l').
Qed.

Lemma name_pattern_accepted (s : string) :
  dangling_escape (list_ascii_of_string (name_pattern s)) = false.
Proof. rewrite name_pattern_text. apply no_dangling_escape. Qed.

Lemma satisfies_list_where (filter : option string) (r : Entity Others) :
  satisfies (list_where filter) r = name_matches filter r.
Proof.
  destruct filter as [[|c s]|]; reflexivity.
Qed.

Lemma filter_list_where (filter : option string) t :
  List.filter (satisfies (list_where filter)) t = matching filter t.
Proof.
  unfold matching. apply filter_ext. intros r. apply satisfies_list_where.
Qed.

Lemma window_length k pn ps filter t :
  1 <= pn -> 1 <= ps ->
  Z.of_nat (List.length (window k pn ps filter t)) =
  Z.min ps (Z.max 0 (Z.of_nat (List.length (matching filter t)) - (pn - 1) * ps)).
Proof.
  intros Hpn Hps. unfold window, matching.
  rewrite length_firstn, length_skipn, filter_scan_length. nia.
Qed.

(** *** Running single statements *)

Lemma issue_ok env (st : Statement Others) w :
  fault env (List.length (journal w)) = None ->
  issue env st w = (Resolved (List.length (journal w)), sent w st).
Proof. intros H. unfold issue. now rewrite H. Qed.

Lemma issue_fails env (st : Statement Others) w e :
  fault env (List.length (journal w)) = Some e ->
  issue env st w = (Rejected e, sent w st).
Proof. intros H. unfold issue. now rewrite H. Qed.

Lemma selectCount_ok env c w :
  fault env (List.length (journal w)) = None ->
  selectCount env c w =
  (Resolved (Z.of_nat (List.length (filter (satisfies c) (rows w)))),
   sent w (SelectCount c)).
Proof.
  intros H. unfold selectCount, bind. now rewrite (issue_ok _ _ _ H).
Qed.

Lemma selectCount_fails env c w e :
  fault env (List.length (journal w)) = Some e ->
  selectCount env c w = (Rejected e, sent w (SelectCount c)).
Proof.
  intros H. unfold selectCount, bind. now rewrite (issue_fails _ _ _ _ H).
Qed.

Lemma select_ok env c limit offset w :
  fault env (List.length (journal w)) = None ->
  0 <= limit -> negative offset = false ->
  select env c limit offset w =
  (Resolved (firstn (Z.to_nat limit)
               (skip offset
                  (filter (satisfies c)
                     (scan (scanStart env (List.length (journal w))) (rows w))))),
   sent w (Select c limit offset)).
Proof.
  intros H Hl Ho. unfold select, bind. rewrite (issue_ok _ _ _ H), Ho.
  replace (limit <? 0) with false by (symmetry; apply Z.ltb_ge; exact Hl).
  reflexivity.
Qed.

Lemma select_fails env c limit offset w e :
  fault env (List.length (journal w)) = Some e ->
  select env c limit offset w = (Rejected e, sent w (Select c limit offset)).
Proof.
  intros H. unfold select, bind. now rewrite (issue_fails _ _ _ _ H).
Qed.

Lemma sent_length w (st : Statement Others) :
  List.length (journal (sent w st)) = S (List.length (journal w)).
Proof. unfold sent. simpl. rewrite length_app. simpl. lia. Qed.

End TableFacts.

(** ** Facts about validation *)

Lemma positive_integer_spec default bound v n :
  positive_integer default bound v = Some n ->
  (v = Missing /\ n = default) \/
  (exists q, v = Numeric q /\ (q == inject_Z n)%Q /\ 1 <= n /\
             within bound n = true).
Proof.
  destruct v as [| |q]; simpl; [intros [= <-]; now left | discriminate |].
  destruct (is_integer q) eqn:Hi; simpl; [|discriminate].
  destruct (1 <=? Qfloor q) eqn:H1; simpl; [|discriminate].
  destruct (within bound (Qfloor q)) eqn:Hb; [|discriminate].
  intros [= <-]. right. exists q. repeat split; auto.
  - now apply Qeq_bool_eq.
  - now apply Z.leb_le.
Qed.

Lemma positive_integer_positive default bound v n :
  1 <= default -> positive_integer default bound v = Some n -> 1 <= n.
Proof.
  intros Hd H. apply positive_integer_spec in H as [[_ ->] | (q & _ & _ & H & _)];
    assumption.
Qed.

Lemma positive_integer_rejects default bound v :
  out_of_range bound v -> positive_integer default bound v = None.
Proof.
  destruct v as [| |q]; simpl; [intros [] | reflexivity |].
  intros [Hi | [Hle | Hb]].
  - now rewrite Hi.
  - apply Qfloor_resp_le in Hle. change (Qfloor 0) with 0 in Hle.
    replace (1 <=? Qfloor q) with false by (symmetry; apply Z.leb_gt; lia).
    now rewrite andb_false_r.
  - destruct bound as [m|]; [|destruct Hb].
    destruct (is_integer q) eqn:Hi; [|reflexivity].
    apply Qeq_bool_eq in Hi. rewrite Hi in Hb. rewrite <- Zlt_Qlt in Hb.
    simpl. replace (Qfloor q <=? m) with false by (symmetry; apply Z.leb_gt; lia).
    now rewrite andb_false_r.
Qed.

Lemma listEntitiesSchema_valid limits q v :
  listEntitiesSchema limits q = Some v ->
  1 <= list_pageNumber v /\ 1 <= list_pageSize v /\ list_name v = raw_name q.
Proof.
  unfold listEntitiesSchema.
  destruct (positive_integer 1 _ _) as [pn|] eqn:Hpn; [|discriminate].
  destruct (positive_integer 10 _ _) as [ps|] eqn:Hps; [|discriminate].
  intros [= <-]. simpl. repeat split.
  - eapply positive_integer_positive; [|exact Hpn]; lia.
  - eapply positive_integer_positive; [|exact Hps]; lia.
Qed.

Lemma listEntitiesSchema_page_query limits pn ps filter :
  1 <= pn -> 1 <= ps ->
  within (maxPageNumber limits) pn = true ->
  within (maxPageSize limits) ps = true ->
  listEntitiesSchema limits (page_query pn ps filter) =
  Some {| list_pageNumber := pn; list_pageSize := ps; list_name := filter |}.
Proof.
  intros Hpn Hps Hbn Hbs. unfold listEntitiesSchema, page_query, positive_integer.
  simpl raw_pageNumber. simpl raw_pageSize. simpl raw_name.
  unfold is_integer. rewrite !Qfloor_Z, !Qeq_bool_refl, Hbn, Hbs.
  replace (1 <=? pn) with true by (symmetry; now apply Z.leb_le).
  replace (1 <=? ps) with true by (symmetry; now apply Z.leb_le).
  reflexivity.
Qed.

(** ** Running the list endpoint *)

Section ListFacts.

Variable Others : Type.
Implicit Types (w : World Others) (env : Env) (limits : PaginationLimits).

Lemma listRoute_invalid limits env q w :
  listEntitiesSchema limits q = None ->
  listRoute limits env q w = (Resolved validationError, w).
Proof. intros H. unfold listRoute, zValidator. now rewrite H. Qed.

Lemma listRoute_handler limits env q w v :
  listEntitiesSchema limits q = Some v ->
  listRoute limits env q w =
  (totalCount <- selectCount env (list_where (list_name v)) ;;
   items <- select env (list_where (list_name v)) (list_pageSize v)
              (Some ((list_pageNumber v - 1) * list_pageSize v)) ;;
   ret (json_page
          (createPage items totalCount (list_pageNumber v) (list_pageSize v))
          OK)) w.
Proof.
  intros H. unfold listRoute, zValidator. rewrite H. unfold list_where.
  destruct (truthy (list_name v)); reflexivity.
Qed.

Lemma listRoute_ok limits env q w v :
  listEntitiesSchema limits q = Some v ->
  fault env (List.length (journal w)) = None ->
  fault env (S (List.length (journal w))) = None ->
  listRoute limits env q w = (Resolved (json_page (answer env w v) OK), queried w v).
Proof.
  intros Hv H0 H1. rewrite (listRoute_handler _ _ _ _ _ Hv).
  destruct (listEntitiesSchema_valid _ _ _ Hv) as (Hpn & Hps & _).
  unfold bind. rewrite (selectCount_ok _ _ _ _ H0).
  rewrite select_ok.
  - unfold ret, answer, queried, window. simpl skip.
    rewrite length_app, Nat.add_1_r, !filter_list_where. reflexivity.
  - now rewrite sent_length.
  - lia.
  - simpl. apply Z.ltb_ge. nia.
Qed.

Lemma listRoute_count_fails limits env q w v e :
  listEntitiesSchema limits q = Some v ->
  fault env (List.length (journal w)) = Some e ->
  listRoute limits env q w =
  (Rejected e, sent w (SelectCount (list_where (list_name v)))).
Proof.
  intros Hv H0. rewrite (listRoute_handler _ _ _ _ _ Hv).
  unfold bind. now rewrite (selectCount_fails _ _ _ _ _ H0).
Qed.

Lemma listRoute_fetch_fails limits env q w v e :
  listEntitiesSchema limits q = Some v ->
  fault env (List.length (journal w)) = None ->
  fault env (S (List.length (journal w))) = Some e ->
  listRoute limits env q w = (Rejected e, queried w v).
Proof.
  intros Hv H0 H1. rewrite (listRoute_handler _ _ _ _ _ Hv).
  unfold bind. rewrite (selectCount_ok _ _ _ _ H0).
  rewrite (select_fails _ _ _ _ _ _ e); [reflexivity|].
  now rewrite sent_length.
Qed.


(** A list request never changes the rows. *)
Lemma listRoute_reads_only limits env q w :
  rows (snd (listRoute limits env q w)) = rows w.
Proof.
  destruct (listEntitiesSchema limits q) as [v|] eqn:Hv.
  - destruct (fault env (List.length (journal w))) as [e|] eqn:H0.
    + now rewrite (listRoute_count_fails _ _ _ _ _ _ Hv H0).
    + destruct (fault env (S (List.length (journal w)))) as [e|] eqn:H1.
      * now rewrite (listRoute_fetch_fails _ _ _ _ _ _ Hv H0 H1).
      * now rewrite (listRoute_ok _ _ _ _ _ Hv H0 H1).
  - now rewrite (listRoute_invalid _ _ _ _ Hv).
Qed.

End ListFacts.

(** ** Page arithmetic *)

Lemma status_numbers : status_number OK = 200 /\ status_number CREATED = 201.
Proof. split; reflexivity. Qed.

Lemma ceiling_div_bounds (a b : Z) :
  0 < b -> (ceiling_div a b - 1) * b < a <= ceiling_div a b * b.
Proof.
  intros Hb. unfold ceiling_div.
  pose proof (Z.mul_div_le (- a) b Hb).
  pose proof (Z.mul_succ_div_gt (- a) b Hb). nia.
Qed.


Lemma ceiling_div_nonneg (a b : Z) : 0 <= a -> 0 < b -> 0 <= ceiling_div a b.
Proof. intros Ha Hb. pose proof (ceiling_div_bounds a b Hb). nia. Qed.

(** ** The list endpoint *)

Section ListEndpoint.

Variable Others : Type.
Implicit Types (w : World Others) (env : Env) (limits : PaginationLimits).

(** C1. A valid list request whose two statements succeed is answered with a
    page: the fetch statement carries the offset [(pageNumber - 1) * pageSize],
    [totalCount] is the number of rows that satisfy the filter, and the number
    of items is [min pageSize (max 0 (totalCount - (pageNumber - 1) * pageSize))]. *)
Theorem listRoute_window_size limits env q w v :
  listEntitiesSchema limits q = Some v ->
  fault env (List.length (journal w)) = None ->
  fault env (S (List.length (journal w))) = None ->
  exists p w',
    listRoute limits env q w = (Resolved (json_page p OK), w') /\
    journal w' =
      journal w ++
      [SelectCount (list_where (list_name v));
       Select (list_where (list_name v)) (list_pageSize v)
         (Some ((list_pageNumber v - 1) * list_pageSize v))] /\
    pageNumber p = list_pageNumber v /\ pageSize p = list_pageSize v /\
    1 <= pageNumber p /\ 1 <= pageSize p /\
    totalCount p = Z.of_nat (List.length (matching (list_name v) (rows w))) /\
    Z.of_nat (List.length (items p)) =
      Z.min (pageSize p)
        (Z.max 0 (totalCount p - (pageNumber p - 1) * pageSize p)).
Proof.
  intros Hv H0 H1. exists (answer env w v), (queried w v).
  destruct (listEntitiesSchema_valid _ _ _ Hv) as (Hpn & Hps & _).
  split; [now apply listRoute_ok|]. simpl.
  split; [now rewrite <- app_assoc|].
  repeat (split; [reflexivity || assumption|]).
  now apply window_length.
Qed.


(** C3. A list request whose page number or page size is not a number, not
    an integer, not positive or above the configured maximum is answered with
    a validation error and leaves the world as it was: no statement is sent
    to the database, and no page is built from an adjusted value. *)
Theorem listRoute_rejects_invalid limits env q w :
  out_of_range (maxPageNumber limits) (raw_pageNumber q) \/
  out_of_range (maxPageSize limits) (raw_pageSize q) ->
  listRoute (Others := Others) limits env q w = (Resolved validationError, w).
Proof.
  intros H. apply listRoute_invalid. unfold listEntitiesSchema.
  destruct H as [H | H]; rewrite (positive_integer_rejects _ _ _ H).
  - reflexivity.
  - now destruct (positive_integer 1 _ _).
Qed.

(** C4. A valid list request for a page beyond the last one succeeds: the
    page has no items, its [totalCount] is the number of matching rows and its
    [totalPages] the ceiling of [totalCount / pageSize], below the requested
    page number. *)
Theorem listRoute_beyond_last_page limits env q w v :
  listEntitiesSchema limits q = Some v ->
  fault env (List.length (journal w)) = None ->
  fault env (S (List.length (journal w))) = None ->
  ceiling_div (Z.of_nat (List.length (matching (list_name v) (rows w))))
    (list_pageSize v) < list_pageNumber v ->
  exists p w',
    listRoute limits env q w = (Resolved (json_page p OK), w') /\
    items p = [] /\
    totalCount p = Z.of_nat (List.length (matching (list_name v) (rows w))) /\
    (totalPages p - 1) * pageSize p < totalCount p <= totalPages p * pageSize p /\
    totalPages p < pageNumber p.
Proof.
  intros Hv H0 H1 Hlast. exists (answer env w v), (queried w v).
  destruct (listEntitiesSchema_valid _ _ _ Hv) as (Hpn & Hps & _).
  split; [now apply listRoute_ok|]. simpl.
  pose proof (ceiling_div_bounds
    (Z.of_nat (List.length (matching (list_name v) (rows w))))
    (list_pageSize v) ltac:(lia)) as Hc.
  repeat split; try apply Hc; try assumption.
  unfold window. rewrite skipn_all2; [apply firstn_nil|].
  unfold matching in *. rewrite filter_scan_length. nia.
Qed.

(** C8. When the count statement or the fetch statement of a valid list
    request fails, the request rejects with that failure: it resolves with no
    response at all, so with no page. *)
Theorem listRoute_store_failure limits env q w v e :
  listEntitiesSchema limits q = Some v ->
  fault env (List.length (journal w)) = Some e \/
  (fault env (List.length (journal w)) = None /\
   fault env (S (List.length (journal w))) = Some e) ->
  fst (listRoute limits env q w) = Rejected e /\
  forall r : Response Others, fst (listRoute limits env q w) <> Resolved r.
Proof.
  intros Hv [H0 | [H0 H1]].
  - rewrite (listRoute_count_fails _ _ _ _ _ _ _ Hv H0). simpl.
    split; [reflexivity | discriminate].
  - rewrite (listRoute_fetch_fails _ _ _ _ _ _ _ Hv H0 H1). simpl.
    split; [reflexivity | discriminate].
Qed.

End ListEndpoint.

(** ** Pages requested one after the other *)

Lemma serve_cons {S A} (m : Async S A) (rest : list (Async S A)) w a w1 rs w2 :
  m w = (Resolved a, w1) ->
  serve rest w1 = (Resolved rs, w2) ->
  serve (m :: rest) w = (Resolved (a :: rs), w2).
Proof. intros Hm Hrest. simpl. unfold bind. now rewrite Hm, Hrest. Qed.

Lemma firstn_add {A} (x y : nat) (l : list A) :
  firstn (x + y) l = firstn x l ++ firstn y (skipn x l).
Proof.
  revert l. induction x as [|x IH]; intros [|a l]; simpl;
    try reflexivity.
  - now rewrite firstn_nil.
  - now rewrite IH.
Qed.

Lemma in_firstn {A} (n : nat) (l : list A) (x : A) : In x (firstn n l) -> In x l.
Proof.
  intros H. rewrite <- (firstn_skipn n l). apply in_or_app. now left.
Qed.

Lemma in_skipn {A} (n : nat) (l : list A) (x : A) : In x (skipn n l) -> In x l.
Proof.
  intros H. rewrite <- (firstn_skipn n l). apply in_or_app. now right.
Qed.

Lemma NoDup_map_filter {A B} (key : A -> B) (f : A -> bool) (l : list A) :
  NoDup (map key l) -> NoDup (map key (filter f l)).
Proof.
  induction l as [|a l IH]; simpl; intros H; [constructor|].
  inversion H as [|? ? Hin Hnd]; subst. destruct (f a); simpl; auto.
  constructor; auto. intros Hk. apply Hin.
  apply in_map_iff in Hk as (b & E & Hb). apply filter_In in Hb as [Hb _].
  apply in_map_iff. eauto.
Qed.

Lemma within_le (bound : option Z) (a b : Z) :
  a <= b -> within bound b = true -> within bound a = true.
Proof.
  destruct bound as [m|]; simpl; [|reflexivity].
  rewrite !Z.leb_le. lia.
Qed.

Section Crawl.

Variable Others : Type.
Variables (limits : PaginationLimits) (env : Env) (k : nat).
Variables (ps : Z) (filter : option string).
Hypothesis Hreliable : reliable env.
Hypothesis Hsteady : steady env k.
Hypothesis Hps : 1 <= ps.
Hypothesis Hsize : within (maxPageSize limits) ps = true.

Lemma request_ok (i : nat) (w : World Others) :
  (1 <= i)%nat -> within (maxPageNumber limits) (Z.of_nat i) = true ->
  exists w',
    page_request limits env ps filter i w =
    (Resolved
       (json_page
          (createPage (window k (Z.of_nat i) ps filter (rows w))
             (Z.of_nat (List.length (matching filter (rows w))))
             (Z.of_nat i) ps) OK), w') /\
    rows w' = rows w.
Proof.
  intros Hi Hmax.
  pose proof (listEntitiesSchema_page_query limits (Z.of_nat i) ps filter
                ltac:(lia) Hps Hmax Hsize) as Hv.
  eexists. split.
  - unfold page_request.
    rewrite (listRoute_ok _ _ _ _ _ _ Hv (Hreliable _) (Hreliable _)).
    unfold answer. simpl. rewrite Hsteady. reflexivity.
  - reflexivity.
Qed.

Lemma window_offset (i : nat) (t : list (Entity Others)) :
  (1 <= i)%nat ->
  window k (Z.of_nat i) ps filter t =
  firstn (Z.to_nat ps)
    (skipn ((i - 1) * Z.to_nat ps) (matching filter (scan k t))).
Proof.
  intros Hi. unfold window. f_equal. f_equal.
  rewrite Z2Nat.inj_mul by lia. f_equal. lia.
Qed.

(** Pages [a .. a + n - 1] together are the stretch of [n * ps] matching rows
    that begins after the first [(a - 1) * ps]. *)
Lemma crawl_segment (n a : nat) (w : World Others) :
  (1 <= a)%nat ->
  (forall i, (a <= i < a + n)%nat ->
             within (maxPageNumber limits) (Z.of_nat i) = true) ->
  exists rs w',
    serve (map (page_request limits env ps filter) (seq a n)) w =
      (Resolved rs, w') /\
    rows w' = rows w /\
    flat_map page_items rs =
      firstn (n * Z.to_nat ps)
        (skipn ((a - 1) * Z.to_nat ps) (matching filter (scan k (rows w)))) /\
    Forall (fun r => exists p, r = json_page p OK /\
                     totalPages p =
                       ceiling_div
                         (Z.of_nat (List.length (matching filter (rows w)))) ps)
           rs.
Proof.
  revert a w. induction n as [|n IH]; intros a w Ha Hmax.
  - exists [], w. simpl. repeat split. constructor.
  - destruct (request_ok a w Ha (Hmax a ltac:(lia))) as (w1 & Hreq & Hrows).
    destruct (IH (S a) w1 ltac:(lia)) as (rs & w2 & Hrest & Hrows2 & Hitems & Hall).
    { intros i Hi. apply Hmax. lia. }
    eexists (_ :: rs), w2. split; [|split; [|split]].
    + simpl seq. simpl map. exact (serve_cons _ _ _ _ _ _ _ Hreq Hrest).
    + congruence.
    + simpl flat_map. rewrite Hitems, Hrows. simpl items.
      rewrite (window_offset a _ Ha).
      replace (S a - 1)%nat with a by lia.
      replace (a * Z.to_nat ps)%nat
        with (Z.to_nat ps + (a - 1) * Z.to_nat ps)%nat by nia.
      rewrite <- skipn_skipn, <- firstn_add. reflexivity.
    + constructor.
      * eexists. split; reflexivity.
      * rewrite Hrows in Hall. exact Hall.
Qed.

End Crawl.

Section ListOrder.

Variable Others : Type.
Implicit Types (w : World Others) (env : Env) (limits : PaginationLimits).

(** C5, as the code has it.  The fetch statement has no ORDER BY, so its rows
    come in the order of the database's scan.  When no statement fails and
    every scan begins at the same position [k], the pages [1 .. totalPages] of
    one page size, requested in turn, hold together exactly the matching rows
    in that scan order: every matching row, none twice. *)
Theorem crawl_exhaustive limits env k ps filter w :
  reliable env -> steady env k ->
  1 <= ps -> within (maxPageSize limits) ps = true ->
  within (maxPageNumber limits)
    (ceiling_div (Z.of_nat (List.length (matching filter (rows w)))) ps) = true ->
  exists rs w',
    crawl limits env ps filter
      (Z.to_nat (ceiling_div (Z.of_nat (List.length (matching filter (rows w)))) ps))
      w = (Resolved rs, w') /\
    Forall (fun r => exists p, r = json_page p OK /\
                     totalPages p =
                       ceiling_div
                         (Z.of_nat (List.length (matching filter (rows w)))) ps)
           rs /\
    flat_map page_items rs = matching filter (scan k (rows w)) /\
    Permutation (flat_map page_items rs) (matching filter (rows w)) /\
    (NoDup (map entityId (rows w)) ->
     NoDup (map entityId (flat_map page_items rs))).
Proof.
  intros Hrel Hst Hps Hsize Hmax.
  remember (Z.of_nat (List.length (matching filter (rows w)))) as total eqn:Et.
  assert (Hps' : 0 < ps) by lia.
  assert (Ht : 0 <= total) by lia.
  pose proof (ceiling_div_bounds total ps Hps') as Hc.
  pose proof (ceiling_div_nonneg total ps Ht Hps') as Hn.
  destruct (crawl_segment Others limits env k ps filter Hrel Hst Hps Hsize
              (Z.to_nat (ceiling_div total ps)) 1 w (le_n 1))
    as (rs & w' & Hrun & _ & Hitems & Hall).
  { intros i Hi. apply (within_le _ (Z.of_nat i) (ceiling_div total ps));
      [lia | exact Hmax]. }
  rewrite <- Et in Hall.
  assert (E : flat_map page_items rs = matching filter (scan k (rows w))).
  { rewrite Hitems. simpl. apply firstn_all2.
    unfold matching. rewrite filter_scan_length. fold (matching filter (rows w)).
    nia. }
  assert (P : Permutation (flat_map page_items rs) (matching filter (rows w))).
  { rewrite E. apply filter_permutation, scan_permutation. }
  exists rs, w'. repeat split; auto.
  intros Hnd. apply (Permutation_NoDup (Permutation_map entityId (Permutation_sym P))).
  now apply NoDup_map_filter.
Qed.

(** C6, as the code has it.  Two list requests with the same query string
    against worlds with the same rows, none of whose statements fails, are
    both refused, or both answered with pages that agree on [totalCount],
    [totalPages], [pageNumber], [pageSize] and the number of items; the pages
    are equal when the scans of the two fetch statements begin at the same
    position. *)
Theorem listRoute_repeatable limits env q w1 w2 :
  rows w1 = rows w2 ->
  fault env (List.length (journal w1)) = None ->
  fault env (S (List.length (journal w1))) = None ->
  fault env (List.length (journal w2)) = None ->
  fault env (S (List.length (journal w2))) = None ->
  (fst (listRoute limits env q w1) = Resolved validationError /\
   fst (listRoute limits env q w2) = Resolved validationError) \/
  (exists p1 p2,
     fst (listRoute limits env q w1) = Resolved (json_page p1 OK) /\
     fst (listRoute limits env q w2) = Resolved (json_page p2 OK) /\
     totalCount p1 = totalCount p2 /\ totalPages p1 = totalPages p2 /\
     pageNumber p1 = pageNumber p2 /\ pageSize p1 = pageSize p2 /\
     List.length (items p1) = List.length (items p2) /\
     (scanStart env (S (List.length (journal w1))) =
      scanStart env (S (List.length (journal w2))) -> p1 = p2)).
Proof.
  intros Hrows A0 A1 B0 B1.
  destruct (listEntitiesSchema limits q) as [v|] eqn:Hv.
  - right. exists (answer env w1 v), (answer env w2 v).
    rewrite (listRoute_ok _ _ _ _ _ _ Hv A0 A1), (listRoute_ok _ _ _ _ _ _ Hv B0 B1).
    destruct (listEntitiesSchema_valid _ _ _ Hv) as (Hpn & Hps & _).
    unfold answer. simpl. rewrite Hrows.
    repeat split; try reflexivity.
    + apply Nat2Z.inj. now rewrite !window_length.
    + intros ->. reflexivity.
  - left. now rewrite !(listRoute_invalid _ _ _ _ _ Hv).
Qed.

(** C7, as the code has it.  Both statements of a list request carry the same
    WHERE clause, the conjunction of at most one condition.  Without a name
    (or with the empty one) it holds of every row.  With a name [s] it holds
    of the rows whose name matches the LIKE pattern [%s%]: upper and lower
    case are different, and [%], [_] and the backslash in [s] are read as
    pattern characters; when [s] has none of these, the rows are those whose
    name contains [s] as written.  These rows are the ones counted, and the
    items are a window of them. *)
Theorem listRoute_name_filter limits env q w v :
  listEntitiesSchema limits q = Some v ->
  fault env (List.length (journal w)) = None ->
  fault env (S (List.length (journal w))) = None ->
  exists p w' c,
    listRoute limits env q w = (Resolved (json_page p OK), w') /\
    journal w' =
      journal w ++
      [SelectCount c;
       Select c (list_pageSize v)
         (Some ((list_pageNumber v - 1) * list_pageSize v))] /\
    (forall r : Entity Others, satisfies c r = name_matches (raw_name q) r) /\
    totalCount p = Z.of_nat (List.length (List.filter (name_matches (raw_name q)) (rows w))) /\
    (exists k, items p =
       firstn (Z.to_nat (list_pageSize v))
         (skipn (Z.to_nat ((list_pageNumber v - 1) * list_pageSize v))
            (List.filter (name_matches (raw_name q)) (scan k (rows w))))) /\
    (forall r, In r (items p) ->
               In r (rows w) /\ name_matches (raw_name q) r = true) /\
    (raw_name q = None \/ raw_name q = Some EmptyString ->
     forall r : Entity Others, name_matches (raw_name q) r = true) /\
    (forall s, raw_name q = Some s -> s <> EmptyString ->
     forall r : Entity Others,
       name_matches (raw_name q) r =
       like_match (percent :: list_ascii_of_string s ++ [percent])
         (list_ascii_of_string (name r))) /\
    (forall s, raw_name q = Some s -> s <> EmptyString ->
     forallb plain (list_ascii_of_string s) = true ->
     forall r : Entity Others,
       name_matches (raw_name q) r = true <->
       exists pre post : string, name r = (pre ++ s ++ post)%string).
Proof.
  intros Hv H0 H1.
  destruct (listEntitiesSchema_valid _ _ _ Hv) as (Hpn & Hps & Hname).
  exists (answer env w v), (queried w v), (list_where (list_name v)).
  split; [now apply listRoute_ok|]. simpl. rewrite Hname.
  split; [now rewrite <- app_assoc|].
  split; [intros r; apply satisfies_list_where|].
  split; [reflexivity|].
  split; [eexists; reflexivity|].
  assert (Hlike : forall s, raw_name q = Some s -> s <> EmptyString ->
            forall r : Entity Others,
              name_matches (raw_name q) r =
              like_match (percent :: list_ascii_of_string s ++ [percent])
                (list_ascii_of_string (name r))).
  { intros s -> Hs r. destruct s as [|c s]; [congruence|].
    unfold name_matches, like_string. now rewrite name_pattern_text. }
  split; [|split; [|split; [exact Hlike|]]].
  - intros r Hr. unfold window, matching in Hr.
    apply in_firstn, in_skipn, filter_In in Hr as [Hr Hm]. split; [|exact Hm].
    apply (Permutation_in _ (scan_permutation _ _ _) Hr).
  - intros [-> | ->] r; reflexivity.
  - intros s Es Hs Hplain r. rewrite (Hlike s Es Hs r).
    rewrite (like_plain_contains _ _ Hplain). split.
    + intros (pre & post & E).
      exists (string_of_list_ascii pre), (string_of_list_ascii post).
      rewrite <- (string_of_list_ascii_of_string (name r)), E.
      now rewrite !string_of_list_ascii_app, string_of_list_ascii_of_string.
    + intros (pre & post & E).
      exists (list_ascii_of_string pre), (list_ascii_of_string post).
      now rewrite E, !list_ascii_of_string_app.
Qed.

End ListOrder.

(** ** The add and edit endpoints *)

Section Mutations.

Variable Others : Type.
Implicit Types (w : World Others) (env : Env) (t : list (Entity Others)).

Lemma existsb_false_filter (f : Entity Others -> bool) t :
  existsb f t = false -> filter f t = [].
Proof.
  induction t as [|r t IH]; simpl; [reflexivity|].
  intros H. apply orb_false_iff in H as [Hr Ht]. rewrite Hr. auto.
Qed.

Lemma filter_none (f : Entity Others -> bool) t :
  (forall x, In x t -> f x = false) -> filter f t = [].
Proof.
  induction t as [|x t IH]; simpl; intros Ht; [reflexivity|].
  rewrite (Ht x (or_introl eq_refl)). apply IH. intros y Hy. apply Ht. now right.
Qed.

Lemma map_none (f : Entity Others -> bool) (g : Entity Others -> Entity Others) t :
  (forall x, In x t -> f x = false) ->
  map (fun x => if f x then g x else x) t = t.
Proof.
  induction t as [|x t IH]; simpl; intros Ht; [reflexivity|].
  rewrite (Ht x (or_introl eq_refl)). f_equal. apply IH. intros y Hy.
  apply Ht. now right.
Qed.

(** With distinct keys, the rows of the key of [r] are [r] alone, and
    setting fields on them touches [r] alone. *)
Lemma unique_key_row (pre post : list (Entity Others)) r id :
  entityId r = canonical id ->
  NoDup (map entityId (pre ++ r :: post)) ->
  filter (has_key id) (pre ++ r :: post) = [r] /\
  forall g : Entity Others -> Entity Others,
    map (fun x => if has_key id x then g x else x) (pre ++ r :: post)
    = pre ++ g r :: post.
Proof.
  intros Hid H.
  rewrite map_app in H. simpl in H. apply NoDup_remove_2 in H.
  assert (Hother : forall x : Entity Others,
            In (entityId x) (map entityId pre ++ map entityId post) ->
            has_key id x = false).
  { intros x Hx. unfold has_key. destruct (String.eqb _ _) eqn:E; [|reflexivity].
    exfalso. apply String.eqb_eq in E. apply H. now rewrite Hid, <- E. }
  assert (Hpre : forall x, In x pre -> has_key id x = false).
  { intros x Hx. apply Hother, in_or_app. left. now apply in_map. }
  assert (Hpost : forall x, In x post -> has_key id x = false).
  { intros x Hx. apply Hother, in_or_app. right. now apply in_map. }
  assert (Hr : has_key id r = true).
  { unfold has_key. rewrite Hid. apply String.eqb_refl. }
  split.
  - rewrite filter_app. cbn [filter]. rewrite Hr.
    now rewrite (filter_none _ pre Hpre), (filter_none _ post Hpost).
  - intros g. rewrite map_app. cbn [map]. rewrite Hr.
    now rewrite (map_none _ g pre Hpre), (map_none _ g post Hpost).
Qed.

Lemma insert_ok env (v : Entity Others) w :
  fault env (List.length (journal w)) = None ->
  existsb (has_key (entityId v)) (rows w) = false ->
  insert env v w =
  (Resolved [stored v],
   {| rows := rows w ++ [stored v]; journal := journal w ++ [Insert v];
      minted := minted w |}).
Proof.
  intros H Hfresh. unfold insert, bind. rewrite (issue_ok _ _ _ _ H).
  unfold table. simpl. now rewrite Hfresh.
Qed.

(** A successful insert keeps the keys of the table distinct. *)
Lemma insert_keeps_keys_distinct (v : Entity Others) t :
  NoDup (map entityId t) ->
  existsb (has_key (entityId v)) t = false ->
  NoDup (map entityId (t ++ [stored v])).
Proof.
  intros Hnd Hfresh. rewrite map_app. simpl.
  apply Permutation_NoDup with (l := canonical (entityId v) :: map entityId t).
  - apply Permutation_cons_append.
  - constructor; [|exact Hnd]. intros Hin.
    apply in_map_iff in Hin as (x & E & Hx).
    assert (existsb (has_key (entityId v)) t = true); [|congruence].
    apply existsb_exists. exists x. split; [exact Hx|].
    now apply String.eqb_eq.
Qed.

Lemma update_ok env (data : EditEntity Others) c w :
  fault env (List.length (journal w)) = None ->
  update env data c w =
  (Resolved (map (assign data)
               (filter (satisfies c)
                  (scan (scanStart env (List.length (journal w))) (rows w)))),
   {| rows := map (fun r => if satisfies c r then assign data r else r) (rows w);
      journal := journal w ++ [Update data c];
      minted := minted w |}).
Proof.
  intros H. unfold update, bind. now rewrite (issue_ok _ _ _ _ H).
Qed.

Lemma assign_keeps_keys (data : EditEntity Others)
  (f : Entity Others -> bool) t :
  map entityId (map (fun r => if f r then assign data r else r) t)
  = map entityId t.
Proof.
  rewrite map_map. apply map_ext. intros r. now destruct (f r).
Qed.

(** The keys of the table stay distinct whatever an add request does. *)
Lemma addRoute_keeps_keys_distinct env body w :
  NoDup (map entityId (rows w)) ->
  NoDup (map entityId (rows (snd (addRoute env body w)))).
Proof.
  intros Hnd. unfold addRoute, zValidator.
  destruct (addEntitySchema body) as [data|]; [|exact Hnd].
  unfold bind at 1. unfold mint. unfold insert, bind, issue, table. simpl.
  destruct (fault env (List.length (journal w))); simpl; [exact Hnd|].
  destruct (existsb _ (rows w)) eqn:Hfresh; simpl; [exact Hnd|].
  exact (insert_keeps_keys_distinct
           {| entityId := v7 env (minted w); name := add_name Others data;
              others := add_others Others data |} _ Hnd Hfresh).
Qed.

(** The keys of the table stay distinct whatever an edit request does. *)
Lemma editRoute_keeps_keys_distinct env param body w :
  NoDup (map entityId (rows w)) ->
  NoDup (map entityId (rows (snd (editRoute env param body w)))).
Proof.
  intros Hnd. unfold editRoute, zValidator.
  destruct (paramSchema param) as [id|]; [|exact Hnd].
  destruct (editEntitySchema body) as [data|]; [|exact Hnd].
  unfold bind at 1. unfold select, bind, issue, table. simpl.
  destruct (fault env (List.length (journal w))); simpl; [exact Hnd|].
  destruct (Nat.eqb _ 0); simpl; [exact Hnd|].
  unfold update, bind, issue, table, store. simpl.
  destruct (fault env _); simpl; [exact Hnd|].
  now rewrite assign_keeps_keys.
Qed.

(** C10. A valid edit request whose statements do not fail, against a table
    with distinct keys: when no row has the requested key it is answered with
    a not-found error, only the SELECT having been sent and the rows being as
    before; when a row has it, that row alone is changed, in its editable
    fields alone, and the answer is OK with the changed row. *)
Theorem editRoute_updates_one env param body w id data :
  paramSchema param = Some id ->
  editEntitySchema body = Some data ->
  fault env (List.length (journal w)) = None ->
  NoDup (map entityId (rows w)) ->
  (existsb (has_key id) (rows w) = false ->
   exists w',
     editRoute env param body w = (Resolved (notFoundError (not_found id)), w') /\
     rows w' = rows w /\
     journal w' = journal w ++ [Select (Some (eq_ col_entityId id)) 1 None]) /\
  (forall pre r post,
     rows w = pre ++ r :: post -> entityId r = canonical id ->
     fault env (S (List.length (journal w))) = None ->
     exists w',
       editRoute env param body w =
         (Resolved (json_item (Some (assign data r)) OK), w') /\
       rows w' = pre ++ assign data r :: post /\
       entityId (assign data r) = entityId r /\
       name (assign data r) = edit_name Others data /\
       others (assign data r) = edit_others Others data /\
       journal w' =
         journal w ++ [Select (Some (eq_ col_entityId id)) 1 None;
                       Update data (Some (eq_ col_entityId id))]).
Proof.
  intros Hp Hb H0 Hnd.
  assert (Hrun : editRoute env param body w =
    (existing <- select env (Some (eq_ col_entityId id)) 1 None ;;
     if Nat.eqb (List.length existing) 0 then
       ret (notFoundError (not_found id))
     else
       updated <- update env data (Some (eq_ col_entityId id)) ;;
       ret (json_item (hd_error updated) OK)) w).
  { unfold editRoute, zValidator. now rewrite Hp, Hb. }
  assert (Hsel : select env (Some (eq_ col_entityId id)) 1 None w =
    (Resolved (firstn 1 (filter (has_key id)
                 (scan (scanStart env (List.length (journal w))) (rows w)))),
     sent w (Select (Some (eq_ col_entityId id)) 1 None))).
  { rewrite select_ok; [reflexivity | exact H0 | lia | reflexivity]. }
  rewrite Hrun. unfold bind at 1 3. rewrite Hsel. clear Hrun Hsel.
  split.
  - intros Habsent.
    assert (E : filter (has_key id)
                  (scan (scanStart env (List.length (journal w))) (rows w)) = []).
    { apply length_zero_iff_nil. rewrite filter_scan_length.
      now rewrite (existsb_false_filter _ _ Habsent). }
    rewrite E. eexists. split; [reflexivity|]. split; reflexivity.
  - intros pre r post Hrows Hid H1. rewrite Hrows in Hnd.
    destruct (unique_key_row pre post r id Hid Hnd) as [Hone Hmap].
    assert (E : forall k, filter (has_key id) (scan k (rows w)) = [r]).
    { intros k. apply Permutation_length_1_inv. rewrite <- Hone, <- Hrows.
      apply Permutation_sym, filter_permutation, scan_permutation. }
    rewrite E. cbn [firstn List.length Nat.eqb].
    unfold bind. rewrite update_ok by (now rewrite sent_length).
    change (satisfies (Some (eq_ col_entityId id)))
      with (has_key (Others := Others) id).
    simpl rows. rewrite E. simpl. rewrite Hrows, (Hmap (assign data)).
    eexists. split; [reflexivity|]. simpl. rewrite <- app_assoc.
    repeat split.
Qed.

End Mutations.

(** ** The theorems at work on the todos *)

Lemma listRoute_window_size_witness :
  exists p w',
    listRoute limits100 calm (page_query 2 1 None) two_todos =
      (Resolved (json_page p OK), w') /\
    journal w' =
      journal two_todos ++
      [SelectCount (list_where (list_name second_of_one));
       Select (list_where (list_name second_of_one)) (list_pageSize second_of_one)
         (Some ((list_pageNumber second_of_one - 1) * list_pageSize second_of_one))] /\
    pageNumber p = list_pageNumber second_of_one /\
    pageSize p = list_pageSize second_of_one /\
    1 <= pageNumber p /\ 1 <= pageSize p /\
    totalCount p =
      Z.of_nat (List.length (matching (list_name second_of_one) (rows two_todos))) /\
    Z.of_nat (List.length (items p)) =
      Z.min (pageSize p)
        (Z.max 0 (totalCount p - (pageNumber p - 1) * pageSize p)).
Proof.
  apply (listRoute_window_size bool limits100 calm (page_query 2 1 None)
           two_todos second_of_one); reflexivity.
Defined.


Lemma listRoute_rejects_invalid_witness :
  listRoute limits100 calm (page_query 0 10 None) two_todos =
  (Resolved validationError, two_todos).
Proof.
  apply (listRoute_rejects_invalid bool limits100 calm (page_query 0 10 None)
           two_todos).
  left. right. left. unfold Qle. simpl. lia.
Defined.

Lemma listRoute_beyond_last_page_witness :
  exists p w',
    listRoute limits100 calm (page_query 5 10 None) two_todos =
      (Resolved (json_page p OK), w') /\
    items p = [] /\
    totalCount p =
      Z.of_nat (List.length (matching (list_name fifth_of_ten) (rows two_todos))) /\
    (totalPages p - 1) * pageSize p < totalCount p <= totalPages p * pageSize p /\
    totalPages p < pageNumber p.
Proof.
  apply (listRoute_beyond_last_page bool limits100 calm (page_query 5 10 None)
           two_todos fifth_of_ten); reflexivity.
Defined.

Lemma listRoute_store_failure_witness :
  fst (listRoute limits100 flaky (page_query 2 1 None) two_todos) =
    Rejected (Unavailable "timeout") /\
  forall r : Response bool,
    fst (listRoute limits100 flaky (page_query 2 1 None) two_todos) <> Resolved r.
Proof.
  apply (listRoute_store_failure bool limits100 flaky (page_query 2 1 None)
           two_todos second_of_one (Unavailable "timeout")).
  - reflexivity.
  - right. split; reflexivity.
Defined.

Lemma crawl_exhaustive_witness :
  exists rs w',
    crawl limits100 calm 1 None
      (Z.to_nat (ceiling_div (Z.of_nat (List.length (matching None (rows two_todos)))) 1))
      two_todos = (Resolved rs, w') /\
    Forall (fun r => exists p, r = json_page p OK /\
                     totalPages p =
                       ceiling_div
                         (Z.of_nat (List.length (matching None (rows two_todos)))) 1)
           rs /\
    flat_map page_items rs = matching None (scan 0 (rows two_todos)) /\
    Permutation (flat_map page_items rs) (matching None (rows two_todos)) /\
    (NoDup (map entityId (rows two_todos)) ->
     NoDup (map entityId (flat_map page_items rs))).
Proof.
  apply (crawl_exhaustive bool limits100 calm 0 1 None two_todos).
  - intros n. reflexivity.
  - intros n. reflexivity.
  - lia.
  - reflexivity.
  - reflexivity.
Defined.

Lemma listRoute_repeatable_witness :
  (fst (listRoute limits100 calm (page_query 1 1 None) two_todos) =
     Resolved validationError /\
   fst (listRoute limits100 calm (page_query 1 1 None)
          (snd (listRoute limits100 calm (page_query 1 1 None) two_todos))) =
     Resolved validationError) \/
  (exists p1 p2,
     fst (listRoute limits100 calm (page_query 1 1 None) two_todos) =
       Resolved (json_page p1 OK) /\
     fst (listRoute limits100 calm (page_query 1 1 None)
            (snd (listRoute limits100 calm (page_query 1 1 None) two_todos))) =
       Resolved (json_page p2 OK) /\
     totalCount p1 = totalCount p2 /\ totalPages p1 = totalPages p2 /\
     pageNumber p1 = pageNumber p2 /\ pageSize p1 = pageSize p2 /\
     List.length (items p1) = List.length (items p2) /\
     (scanStart calm (S (List.length (journal two_todos))) =
      scanStart calm
        (S (List.length
              (journal (snd (listRoute limits100 calm (page_query 1 1 None)
                              two_todos))))) ->
      p1 = p2)).
Proof.
  apply (listRoute_repeatable bool limits100 calm (page_query 1 1 None) two_todos
           (snd (listRoute limits100 calm (page_query 1 1 None) two_todos)));
    reflexivity.
Defined.

Lemma listRoute_name_filter_witness :
  exists p w' c,
    listRoute limits100 calm (page_query 1 10 (Some "dog"%string)) two_todos =
      (Resolved (json_page p OK), w') /\
    journal w' = journal two_todos ++ [SelectCount c; Select c 10 (Some 0)] /\
    (forall r : Todo, satisfies c r = name_matches (Some "dog"%string) r) /\
    totalCount p = 1 /\ items p = [dog].
Proof.
  destruct (listRoute_name_filter bool limits100 calm
              (page_query 1 10 (Some "dog"%string)) two_todos dogs
              eq_refl eq_refl eq_refl)
    as (p & w' & c & Hrun & Hj & Hc & Hcount & _).
  exists p, w', c. repeat split; try assumption.
  injection Hrun as <- _. reflexivity.
Defined.

Lemma editRoute_updates_one_witness :
  exists w',
    editRoute calm (entityId dog) walked two_todos =
      (Resolved (json_item (Some (todo (entityId dog) "walk dog twice" true)) OK), w') /\
    rows w' = [milk; todo (entityId dog) "walk dog twice" true].
Proof.
  destruct (editRoute_updates_one bool calm (entityId dog) walked two_todos
              (entityId dog)
              {| edit_name := "walk dog twice"; edit_others := true |}
              eq_refl eq_refl eq_refl) as [_ Hfound].
  - repeat constructor; simpl; intuition discriminate.
  - destruct (Hfound [milk] dog [] eq_refl eq_refl eq_refl)
      as (w' & Hrun & Hrows & _).
    exists w'. split; assumption.
Defined.

(** ** Where the code parts from the specification *)

(** C5 fails as stated: the fetch statement names no order, and when the scan
    of the second fetch begins one row further than that of the first, pages
    one and two of size one both hold the first todo; the second todo is on
    no page. *)
Lemma crawl_repeats_a_row :
  reliable restless /\
  exists w',
    crawl limits100 restless 1 None 2 two_todos =
      (Resolved [json_page (createPage [milk] 2 1 1) OK;
                 json_page (createPage [milk] 2 2 1) OK], w') /\
    journal w' =
      [SelectCount None; Select None 1 (Some 0);
       SelectCount None; Select None 1 (Some 1)] /\
    totalPages (createPage [milk] 2 1 1) = 2 /\
    matching None (rows two_todos) = [milk; dog] /\
    flat_map page_items
      [json_page (createPage [milk] 2 1 1) OK;
       json_page (createPage [milk] 2 2 1) OK] = [milk; milk] /\
    ~ NoDup [milk; milk] /\ ~ In dog [milk; milk].
Proof.
  split; [intros n; reflexivity|].
  eexists. split; [reflexivity|]. repeat split.
  - intros H. inversion H as [|? ? Hin _]. apply Hin. now left.
  - intros [H | [H | []]]; discriminate.
Qed.

(** C6 fails as stated: the same request, made twice against the same rows,
    is answered with the first todo and then with the second one when the two
    scans begin at different rows. *)
Lemma listRoute_differs_between_calls :
  exists w1 w2,
    listRoute limits100 restless (page_query 1 1 None) two_todos =
      (Resolved (json_page (createPage [milk] 2 1 1) OK), w1) /\
    rows w1 = rows two_todos /\
    listRoute limits100 restless (page_query 1 1 None) w1 =
      (Resolved (json_page (createPage [dog] 2 1 1) OK), w2) /\
    createPage [milk] 2 1 1 <> createPage [dog] 2 1 1.
Proof.
  exists (queried two_todos first_of_one),
         (queried (queried two_todos first_of_one) first_of_one).
  split; [reflexivity|]. split; [reflexivity|].
  split; [reflexivity|]. discriminate.
Qed.

(** C7 fails as stated: "Buy Milk" contains "milk" when case is ignored, yet
    a request for the name "milk" counts and fetches nothing; and a request
    for the name "_" counts and fetches both todos, neither of which has an
    underscore in its name. *)
Lemma listRoute_name_is_a_like_pattern :
  spec_name_filter "milk" (name milk) = true /\
  fst (listRoute limits100 calm (page_query 1 10 (Some "milk"%string)) two_todos) =
    Resolved (json_page (createPage [] 0 1 10) OK) /\
  spec_name_filter "_" (name milk) = false /\
  spec_name_filter "_" (name dog) = false /\
  fst (listRoute limits100 calm (page_query 1 10 (Some "_"%string)) two_todos) =
    Resolved (json_page (createPage [milk; dog] 2 1 10) OK).
Proof. repeat split. Qed.

(** ** Looking rows up by key *)

Lemma lower_idempotent (c : ascii) : lower (lower c) = lower c.
Proof. destruct c as [[] [] [] [] [] [] [] []]; reflexivity. Qed.

Lemma canonical_idempotent (id : string) : canonical (canonical id) = canonical id.
Proof.
  unfold canonical. rewrite list_ascii_of_string_of_list_ascii, map_map.
  f_equal. apply map_ext. intros c. apply lower_idempotent.
Qed.

Lemma string_length_of_list (l : text) :
  String.length (string_of_list_ascii l) = List.length l.
Proof. induction l as [|c l IH]; simpl; [reflexivity | now rewrite IH]. Qed.

Lemma list_length_of_string (s : string) :
  List.length (list_ascii_of_string s) = String.length s.
Proof. induction s as [|c s IH]; simpl; [reflexivity | now rewrite IH]. Qed.

Lemma uuidv7_position_lower (i : nat) (c : ascii) :
  uuidv7_position i c = true -> uuidv7_position i (lower c) = true.
Proof.
  unfold uuidv7_position.
  destruct (Nat.eqb i 8 || Nat.eqb i 13 || Nat.eqb i 18 || Nat.eqb i 23)%bool;
    [|destruct (Nat.eqb i 14); [|destruct (Nat.eqb i 19)]];
    destruct c as [[] [] [] [] [] [] [] []]; intros H;
    solve [reflexivity | discriminate H].
Qed.

Lemma all_positions_lower (i : nat) (l : text) :
  all_positions uuidv7_position i l = true ->
  all_positions uuidv7_position i (map lower l) = true.
Proof.
  revert i. induction l as [|c l IH]; intros i; simpl; [reflexivity|].
  rewrite !andb_true_iff. intros [Hc Hl]. split.
  - now apply uuidv7_position_lower.
  - now apply IH.
Qed.

(** The lower-case form of a UUIDv7 is a UUIDv7. *)
Lemma is_uuidv7_canonical (id : string) :
  is_uuidv7 id = true -> is_uuidv7 (canonical id) = true.
Proof.
  unfold is_uuidv7, canonical. rewrite !andb_true_iff. intros [Hlen Hpos].
  rewrite string_length_of_list, length_map, list_length_of_string,
    list_ascii_of_string_of_list_ascii.
  split; [exact Hlen | now apply all_positions_lower].
Qed.

Section Lookup.

Variable Others : Type.
Implicit Types (w : World Others) (env : Env) (t : list (Entity Others)).

Lemma has_key_canonical (id : Uuid) (r : Entity Others) :
  has_key (canonical id) r = has_key id r.
Proof. unfold has_key. now rewrite canonical_idempotent. Qed.

Lemma lookup_absent (id : Uuid) t (k : nat) :
  existsb (has_key id) t = false -> filter (has_key id) (scan k t) = [].
Proof.
  intros H. apply length_zero_iff_nil. rewrite filter_scan_length.
  now rewrite (existsb_false_filter _ _ _ H).
Qed.

Lemma lookup_present (id : Uuid) t (r : Entity Others) (k : nat) :
  NoDup (map entityId t) -> In r t -> entityId r = canonical id ->
  filter (has_key id) (scan k t) = [r].
Proof.
  intros Hnd Hin Hid. apply in_split in Hin as (pre & post & ->).
  destruct (unique_key_row _ pre post r id Hid Hnd) as [Hone _].
  apply Permutation_length_1_inv. rewrite <- Hone.
  apply Permutation_sym, filter_permutation, scan_permutation.
Qed.

Lemma present_not_absent (id : Uuid) t (r : Entity Others) :
  In r t -> entityId r = canonical id -> existsb (has_key id) t = true.
Proof.
  intros Hin Hid. apply existsb_exists. exists r. split; [exact Hin|].
  unfold has_key. rewrite Hid. apply String.eqb_refl.
Qed.

(** The SELECT by key of the get, edit and delete endpoints. *)
Lemma select_by_key env (id : Uuid) w :
  fault env (List.length (journal w)) = None ->
  select env (Some (eq_ col_entityId id)) 1 None w =
  (Resolved (firstn 1 (filter (has_key id)
               (scan (scanStart env (List.length (journal w))) (rows w)))),
   sent w (Select (Some (eq_ col_entityId id)) 1 None)).
Proof.
  intros H0. rewrite select_ok; [reflexivity | exact H0 | lia | reflexivity].
Qed.

Lemma paramSchema_valid (id : string) :
  is_uuidv7 id = true -> paramSchema id = Some id.
Proof. intros H. unfold paramSchema. now rewrite H. Qed.

(** *** Running the get endpoint *)

Lemma getRoute_run env (id : string) w :
  is_uuidv7 id = true ->
  fault env (List.length (journal w)) = None ->
  getRoute env id w =
  (Resolved
     match hd_error (firstn 1 (filter (has_key id)
                       (scan (scanStart env (List.length (journal w))) (rows w))))
     with
     | None => notFoundError (not_found id)
     | Some item => json_item (Some item) OK
     end,
   sent w (Select (Some (eq_ col_entityId id)) 1 None)).
Proof.
  intros Hid H0. unfold getRoute, zValidator. rewrite (paramSchema_valid _ Hid).
  unfold bind. rewrite (select_by_key _ _ _ H0).
  now destruct (hd_error _).
Qed.

(** A get request never changes the rows, whatever its outcome. *)
Lemma getRoute_reads_only env (param : string) w :
  rows (snd (getRoute env param w)) = rows w.
Proof.
  unfold getRoute, zValidator. destruct (paramSchema param) as [id|];
    [|reflexivity].
  unfold bind at 1. unfold select, bind, issue, table. simpl.
  destruct (fault env (List.length (journal w))); simpl; [reflexivity|].
  now destruct (hd_error _).
Qed.

(** *** Running the add and edit endpoints *)

Lemma addRoute_run env (body : RawBody Others) w data :
  addEntitySchema body = Some data ->
  fault env (List.length (journal w)) = None ->
  existsb (has_key (v7 env (minted w))) (rows w) = false ->
  addRoute env body w =
  (Resolved
     (json_item
        (Some (stored {| entityId := v7 env (minted w);
                         name := add_name Others data;
                         others := add_others Others data |})) CREATED),
   {| rows := rows w ++ [stored {| entityId := v7 env (minted w);
                                   name := add_name Others data;
                                   others := add_others Others data |}];
      journal := journal w ++ [Insert {| entityId := v7 env (minted w);
                                         name := add_name Others data;
                                         others := add_others Others data |}];
      minted := S (minted w) |}).
Proof.
  intros Hv H0 Hfresh. unfold addRoute, zValidator. rewrite Hv.
  unfold bind at 1. unfold mint. unfold bind.
  rewrite insert_ok; [reflexivity | exact H0 | exact Hfresh].
Qed.

Lemma editRoute_run env (id : string) (body : RawBody Others) w data r :
  is_uuidv7 id = true ->
  editEntitySchema body = Some data ->
  fault env (List.length (journal w)) = None ->
  fault env (S (List.length (journal w))) = None ->
  NoDup (map entityId (rows w)) -> In r (rows w) ->
  entityId r = canonical id ->
  editRoute env id body w =
  (Resolved (json_item (Some (assign data r)) OK),
   {| rows := map (fun x => if has_key id x then assign data x else x) (rows w);
      journal := journal w ++ [Select (Some (eq_ col_entityId id)) 1 None;
                               Update data (Some (eq_ col_entityId id))];
      minted := minted w |}).
Proof.
  intros Hid Hb H0 H1 Hnd Hin Hkey.
  unfold editRoute, zValidator. rewrite (paramSchema_valid _ Hid), Hb.
  unfold bind at 1. rewrite (select_by_key _ _ _ H0).
  rewrite (lookup_present _ _ r _ Hnd Hin Hkey). cbn [firstn List.length Nat.eqb].
  unfold bind. rewrite update_ok by (now rewrite sent_length).
  change (satisfies (Some (eq_ col_entityId id)))
    with (has_key (Others := Others) id).
  simpl rows. rewrite (lookup_present _ _ r _ Hnd Hin Hkey).
  simpl. now rewrite <- app_assoc.
Qed.

End Lookup.

(** ** Reading back what was written *)

Section ReadBack.

Variable Others : Type.
Implicit Types (w : World Others) (env : Env) (r : Entity Others).

(** X1. A get request for a well-formed key that no row has is answered with
    the not-found error naming the key; one SELECT has been sent and the rows
    are as before. *)
Theorem getRoute_missing_key env (id : string) w :
  is_uuidv7 id = true ->
  fault env (List.length (journal w)) = None ->
  existsb (has_key id) (rows w) = false ->
  exists w',
    getRoute env id w = (Resolved (notFoundError (not_found id)), w') /\
    rows w' = rows w /\
    journal w' = journal w ++ [Select (Some (eq_ col_entityId id)) 1 None].
Proof.
  intros Hid H0 Habsent.
  rewrite (getRoute_run _ _ _ _ Hid H0), (lookup_absent _ _ _ _ Habsent).
  eexists. split; [reflexivity|]. split; reflexivity.
Qed.

(** X2. In a table with distinct keys, a get request for the key of a row is
    answered OK with that row, wherever the scan begins and whatever the case
    of the hexadecimal digits in the request; the rows are as before. *)
Theorem getRoute_finds_row env (id : string) w r :
  is_uuidv7 id = true ->
  fault env (List.length (journal w)) = None ->
  NoDup (map entityId (rows w)) -> In r (rows w) ->
  entityId r = canonical id ->
  exists w',
    getRoute env id w = (Resolved (json_item (Some r) OK), w') /\
    rows w' = rows w.
Proof.
  intros Hid H0 Hnd Hin Hkey.
  rewrite (getRoute_run _ _ _ _ Hid H0), (lookup_present _ _ _ r _ Hnd Hin Hkey).
  eexists. split; reflexivity.
Qed.

(** X3. What a successful add request returns can be read back: a get
    request for the key of the returned item is answered OK with the same
    item. *)
Theorem getRoute_after_addRoute env (body : RawBody Others) w data :
  addEntitySchema body = Some data ->
  is_uuidv7 (v7 env (minted w)) = true ->
  fault env (List.length (journal w)) = None ->
  fault env (S (List.length (journal w))) = None ->
  NoDup (map entityId (rows w)) ->
  existsb (has_key (v7 env (minted w))) (rows w) = false ->
  exists item w1,
    addRoute env body w = (Resolved (json_item (Some item) CREATED), w1) /\
    fst (getRoute env (entityId item) w1) = Resolved (json_item (Some item) OK).
Proof.
  intros Hv Huuid H0 H1 Hnd Hfresh.
  eexists. eexists. split; [exact (addRoute_run _ _ _ _ _ Hv H0 Hfresh)|].
  set (row := {| entityId := v7 env (minted w); name := add_name Others data;
                 others := add_others Others data |}).
  rewrite getRoute_run.
  - cbn [fst rows].
    rewrite (lookup_present _ _ _ (stored row)); [reflexivity | | |].
    + exact (insert_keeps_keys_distinct _ row _ Hnd Hfresh).
    + apply in_or_app. right. now left.
    + simpl. now rewrite canonical_idempotent.
  - simpl. now apply is_uuidv7_canonical.
  - simpl. rewrite length_app, Nat.add_1_r. exact H1.
Qed.

(** X4. What a successful edit request returns can be read back: a get
    request for the same key is answered OK with the edited item, whose
    editable fields are the ones of the body and whose key is the old one. *)
Theorem getRoute_after_editRoute env (id : string) (body : RawBody Others) w data r :
  is_uuidv7 id = true ->
  editEntitySchema body = Some data ->
  fault env (List.length (journal w)) = None ->
  fault env (S (List.length (journal w))) = None ->
  fault env (S (S (List.length (journal w)))) = None ->
  NoDup (map entityId (rows w)) -> In r (rows w) ->
  entityId r = canonical id ->
  exists item w1,
    editRoute env id body w = (Resolved (json_item (Some item) OK), w1) /\
    entityId item = entityId r /\
    name item = edit_name Others data /\
    others item = edit_others Others data /\
    fst (getRoute env id w1) = Resolved (json_item (Some item) OK).
Proof.
  intros Hid Hb H0 H1 H2 Hnd Hin Hkey.
  eexists. eexists.
  split; [exact (editRoute_run _ _ _ _ _ _ _ Hid Hb H0 H1 Hnd Hin Hkey)|].
  repeat (split; [reflexivity|]).
  rewrite getRoute_run; [| exact Hid |].
  - cbn [fst rows].
    rewrite (lookup_present _ _ _ (assign data r)); [reflexivity | | |].
    + now rewrite assign_keeps_keys.
    + apply in_map_iff. exists r. split; [|exact Hin].
      unfold has_key. rewrite Hkey, String.eqb_refl. reflexivity.
    + exact Hkey.
  - simpl. rewrite length_app. simpl. rewrite Nat.add_comm. exact H2.
Qed.

(** X5. Editing is idempotent: the same edit request made a second time is
    answered with the same item and leaves the rows as the first one left
    them. *)
Theorem editRoute_twice env (id : string) (body : RawBody Others) w data r :
  is_uuidv7 id = true ->
  editEntitySchema body = Some data ->
  fault env (List.length (journal w)) = None ->
  fault env (S (List.length (journal w))) = None ->
  fault env (S (S (List.length (journal w)))) = None ->
  fault env (S (S (S (List.length (journal w))))) = None ->
  NoDup (map entityId (rows w)) -> In r (rows w) ->
  entityId r = canonical id ->
  exists item w1 w2,
    editRoute env id body w = (Resolved (json_item (Some item) OK), w1) /\
    editRoute env id body w1 = (Resolved (json_item (Some item) OK), w2) /\
    rows w2 = rows w1.
Proof.
  intros Hid Hb H0 H1 H2 H3 Hnd Hin Hkey.
  pose proof (editRoute_run _ _ _ _ _ _ _ Hid Hb H0 H1 Hnd Hin Hkey) as Hfirst.
  eexists. eexists. eexists. split; [exact Hfirst|].
  set (w1 := {| rows := map (fun x => if has_key id x then assign data x else x)
                          (rows w);
                journal := journal w ++
                             [Select (Some (eq_ col_entityId id)) 1 None;
                              Update data (Some (eq_ col_entityId id))];
                minted := minted w |}).
  assert (Hlen : List.length (journal w1) = S (S (List.length (journal w)))).
  { simpl. rewrite length_app. simpl. lia. }
  assert (Hin1 : In (assign data r) (rows w1)).
  { apply in_map_iff. exists r. split; [|exact Hin].
    unfold has_key. rewrite Hkey, String.eqb_refl. reflexivity. }
  assert (Hnd1 : NoDup (map entityId (rows w1))).
  { simpl. now rewrite assign_keeps_keys. }
  rewrite (editRoute_run _ env id body w1 data (assign data r) Hid Hb);
    try assumption; try (rewrite Hlen; assumption).
  split; [reflexivity|]. cbn [rows w1].
  rewrite map_map. apply map_ext. intros x.
  destruct (has_key id x) eqn:Hx.
  - unfold has_key in *. simpl. rewrite Hx. reflexivity.
  - now rewrite Hx.
Qed.

(** X6. When `v7()` hands out an identifier that is already a key of the
    table, the add request rejects with the constraint violation and the rows
    are as before. *)
Theorem addRoute_taken_key env (body : RawBody Others) w data :
  addEntitySchema body = Some data ->
  fault env (List.length (journal w)) = None ->
  existsb (has_key (v7 env (minted w))) (rows w) = true ->
  fst (addRoute env body w) = Rejected (UniqueViolation (v7 env (minted w))) /\
  rows (snd (addRoute env body w)) = rows w.
Proof.
  intros Hv H0 Htaken. unfold addRoute, zValidator. rewrite Hv.
  unfold bind at 1. unfold mint. unfold insert, bind, issue, table. simpl.
  rewrite H0. simpl. rewrite Htaken. split; reflexivity.
Qed.

(** X7. After a successful add request, a list request counts one row more
    than before when the new row's name satisfies the filter, and as many as
    before when it does not. *)
Theorem listRoute_after_addRoute limits env (body : RawBody Others) q w data v :
  addEntitySchema body = Some data ->
  listEntitiesSchema limits q = Some v ->
  fault env (List.length (journal w)) = None ->
  fault env (S (List.length (journal w))) = None ->
  fault env (S (S (List.length (journal w)))) = None ->
  existsb (has_key (v7 env (minted w))) (rows w) = false ->
  exists item w1 p,
    addRoute env body w = (Resolved (json_item (Some item) CREATED), w1) /\
    fst (listRoute limits env q w1) = Resolved (json_page p OK) /\
    totalCount p =
      Z.of_nat (List.length (matching (list_name v) (rows w))) +
      (if name_matches (list_name v) item then 1 else 0).
Proof.
  intros Hb Hv H0 H1 H2 Hfresh.
  eexists. eexists. eexists.
  split; [exact (addRoute_run _ _ _ _ _ Hb H0 Hfresh)|].
  rewrite (listRoute_ok _ limits env q _ v Hv).
  - split; [reflexivity|]. unfold answer. cbn [totalCount createPage rows].
    unfold matching. rewrite filter_app, length_app. cbn [filter].
    destruct (name_matches (list_name v) _); simpl List.length; lia.
  - simpl. rewrite length_app, Nat.add_1_r. exact H1.
  - simpl. rewrite length_app, Nat.add_1_r. exact H2.
Qed.

(** X8. The empty name is no filter: a list request with the name [""] is
    answered as the same request without a name, and sends the same
    statements. *)
Theorem listRoute_empty_name limits env (pn ps : QueryNumber) w :
  listRoute (Others := Others) limits env
    {| raw_pageNumber := pn; raw_pageSize := ps; raw_name := Some EmptyString |} w =
  listRoute limits env
    {| raw_pageNumber := pn; raw_pageSize := ps; raw_name := None |} w.
Proof.
  unfold listRoute, zValidator, listEntitiesSchema. simpl.
  destruct (positive_integer 1 _ pn); [|reflexivity].
  destruct (positive_integer 10 _ ps); reflexivity.
Qed.

End ReadBack.

(** ** Deleting rows *)

Section Deleting.

Variable Others : Type.
Implicit Types (l : Ledger Others) (w : World Others) (env : Env)
  (r : Entity Others) (deleteFault : nat -> option StoreError).

Lemma filter_all (f : Entity Others -> bool) (t : list (Entity Others)) :
  (forall x, In x t -> f x = true) -> filter f t = t.
Proof.
  induction t as [|x t IH]; simpl; intros Ht; [reflexivity|].
  rewrite (Ht x (or_introl eq_refl)). f_equal. apply IH. intros y Hy.
  apply Ht. now right.
Qed.

(** With distinct keys, dropping the rows of the key of [r] drops [r]
    alone. *)
Lemma drop_key_row (pre post : list (Entity Others)) r (id : Uuid) :
  entityId r = canonical id ->
  NoDup (map entityId (pre ++ r :: post)) ->
  filter (fun x => negb (has_key id x)) (pre ++ r :: post) = pre ++ post /\
  existsb (has_key id) (pre ++ post) = false.
Proof.
  intros Hid H. rewrite map_app in H. simpl in H.
  pose proof (NoDup_remove_2 _ _ _ H) as Hnot.
  assert (Hother : forall x : Entity Others, In x (pre ++ post) ->
                                             has_key id x = false).
  { intros x Hx. unfold has_key. destruct (String.eqb _ _) eqn:E; [|reflexivity].
    exfalso. apply String.eqb_eq in E. apply Hnot. rewrite Hid, <- E.
    rewrite <- map_app. now apply in_map. }
  assert (Hr : has_key id r = true).
  { unfold has_key. rewrite Hid. apply String.eqb_refl. }
  split.
  - rewrite filter_app. cbn [filter]. rewrite Hr. cbn [negb]. f_equal.
    + apply filter_all. intros x Hx. rewrite Hother; [reflexivity|].
      apply in_or_app. now left.
    + apply filter_all. intros x Hx. rewrite Hother; [reflexivity|].
      apply in_or_app. now right.
  - destruct (existsb _ _) eqn:E; [|reflexivity].
    apply existsb_exists in E as (x & Hx & Hk). now rewrite (Hother x Hx) in Hk.
Qed.

Lemma on_table_run {A} (m : Async (World Others) A) l a w' :
  m (world l) = (a, w') ->
  on_table m l = (a, {| world := w'; deleted := deleted l |}).
Proof. intros H. unfold on_table. now rewrite H. Qed.

Lemma world_on_table {A} (m : Async (World Others) A) l :
  world (snd (on_table m l)) = snd (m (world l)).
Proof. unfold on_table. now destruct (m (world l)). Qed.

Lemma deleted_on_table {A} (m : Async (World Others) A) l :
  deleted (snd (on_table m l)) = deleted l.
Proof. unfold on_table. now destruct (m (world l)). Qed.

Lemma deleteRoute_run env deleteFault (id : string) l :
  is_uuidv7 id = true ->
  fault env (List.length (journal (world l))) = None ->
  deleteRoute env deleteFault id l =
  match firstn 1 (filter (has_key id)
                    (scan (scanStart env (List.length (journal (world l))))
                       (rows (world l)))) with
  | [] =>
      (Resolved (reply (notFoundError (not_found id))),
       {| world := sent (world l) (Select (Some (eq_ col_entityId id)) 1 None);
          deleted := deleted l |})
  | _ :: _ =>
      (_ <- delete deleteFault (Some (eq_ col_entityId id)) ;;
       ret (body_null NO_CONTENT))
        {| world := sent (world l) (Select (Some (eq_ col_entityId id)) 1 None);
           deleted := deleted l |}
  end.
Proof.
  intros Hid H0. unfold deleteRoute. rewrite (paramSchema_valid _ Hid).
  unfold bind at 1.
  rewrite (on_table_run _ _ _ _ (select_by_key _ _ _ _ H0)).
  now destruct (firstn 1 _).
Qed.

(** X9. A delete request for a well-formed key that no row has is answered
    with the not-found error; no DELETE statement is sent and the rows are as
    before. *)
Theorem deleteRoute_missing_key env deleteFault (id : string) l :
  is_uuidv7 id = true ->
  fault env (List.length (journal (world l))) = None ->
  existsb (has_key id) (rows (world l)) = false ->
  exists l',
    deleteRoute env deleteFault id l =
      (Resolved (reply (notFoundError (not_found id))), l') /\
    rows (world l') = rows (world l) /\
    deleted l' = deleted l.
Proof.
  intros Hid H0 Habsent.
  rewrite (deleteRoute_run _ _ _ _ Hid H0), (lookup_absent _ _ _ _ Habsent).
  eexists. split; [reflexivity|]. split; reflexivity.
Qed.

(** X10. In a table with distinct keys, a delete request for the key of a
    row whose statements do not fail removes that row and no other, keeps the
    order of the rest, and is answered NO_CONTENT without a body. *)
Theorem deleteRoute_removes_row env deleteFault (id : string) l pre r post :
  is_uuidv7 id = true ->
  fault env (List.length (journal (world l))) = None ->
  deleteFault (List.length (deleted l)) = None ->
  NoDup (map entityId (rows (world l))) ->
  rows (world l) = pre ++ r :: post ->
  entityId r = canonical id ->
  exists l',
    deleteRoute env deleteFault id l = (Resolved (body_null NO_CONTENT), l') /\
    rows (world l') = pre ++ post /\
    deleted l' = deleted l ++ [Some (eq_ col_entityId id)].
Proof.
  intros Hid H0 Hd Hnd Hrows Hkey.
  assert (Hin : In r (rows (world l))).
  { rewrite Hrows. apply in_or_app. right. now left. }
  rewrite (deleteRoute_run _ _ _ _ Hid H0), (lookup_present _ _ _ r _ Hnd Hin Hkey).
  cbn [firstn]. unfold bind, delete. cbn [deleted world]. rewrite Hd.
  eexists. split; [reflexivity|]. split; [|reflexivity].
  cbn [world rows sent]. rewrite Hrows in *.
  change (fun x => negb (satisfies (Some (eq_ col_entityId id)) x))
    with (fun x : Entity Others => negb (has_key id x)).
  apply (drop_key_row pre post r id Hkey Hnd).
Qed.

(** X11. A deleted row cannot be read back: after a successful delete
    request, a get request for the same key is answered with the not-found
    error. *)
Theorem getRoute_after_deleteRoute env deleteFault (id : string) l r :
  is_uuidv7 id = true ->
  fault env (List.length (journal (world l))) = None ->
  fault env (S (List.length (journal (world l)))) = None ->
  deleteFault (List.length (deleted l)) = None ->
  NoDup (map entityId (rows (world l))) ->
  In r (rows (world l)) ->
  entityId r = canonical id ->
  exists l1,
    deleteRoute env deleteFault id l = (Resolved (body_null NO_CONTENT), l1) /\
    fst (on_table (getRoute env id) l1) =
      Resolved (notFoundError (not_found id)).
Proof.
  intros Hid H0 H1 Hd Hnd Hin Hkey.
  destruct (in_split _ _ Hin) as (pre & post & Hrows).
  rewrite (deleteRoute_run _ _ _ _ Hid H0), (lookup_present _ _ _ r _ Hnd Hin Hkey).
  cbn [firstn]. unfold bind, delete. cbn [deleted world]. rewrite Hd.
  eexists. split; [reflexivity|].
  unfold on_table. cbn [world]. rewrite getRoute_run; [| exact Hid |].
  - cbn [fst rows sent].
    change (fun x => negb (satisfies (Some (eq_ col_entityId id)) x))
      with (fun x : Entity Others => negb (has_key id x)).
    rewrite Hrows in *.
    destruct (drop_key_row pre post r id Hkey Hnd) as [-> Habsent].
    now rewrite (lookup_absent _ _ _ _ Habsent).
  - cbn [journal sent]. rewrite length_app, Nat.add_1_r. exact H1.
Qed.

(** X12. Deleting is not repeatable: the same delete request made a second
    time is answered with the not-found error, sends no further DELETE and
    leaves the rows as the first one left them. *)
Theorem deleteRoute_twice env deleteFault (id : string) l r :
  is_uuidv7 id = true ->
  fault env (List.length (journal (world l))) = None ->
  fault env (S (List.length (journal (world l)))) = None ->
  deleteFault (List.length (deleted l)) = None ->
  NoDup (map entityId (rows (world l))) ->
  In r (rows (world l)) ->
  entityId r = canonical id ->
  exists l1 l2,
    deleteRoute env deleteFault id l = (Resolved (body_null NO_CONTENT), l1) /\
    deleteRoute env deleteFault id l1 =
      (Resolved (reply (notFoundError (not_found id))), l2) /\
    rows (world l2) = rows (world l1) /\
    deleted l2 = deleted l1.
Proof.
  intros Hid H0 H1 Hd Hnd Hin Hkey.
  destruct (in_split _ _ Hin) as (pre & post & Hrows).
  rewrite (deleteRoute_run _ _ _ l Hid H0), (lookup_present _ _ _ r _ Hnd Hin Hkey).
  cbn [firstn]. unfold bind, delete. cbn [deleted world]. rewrite Hd.
  eexists. eexists. split; [reflexivity|].
  rewrite deleteRoute_run; [| exact Hid |].
  - cbn [world rows sent journal].
    change (fun x => negb (satisfies (Some (eq_ col_entityId id)) x))
      with (fun x : Entity Others => negb (has_key id x)).
    rewrite Hrows in *.
    destruct (drop_key_row pre post r id Hkey Hnd) as [-> Habsent].
    rewrite (lookup_absent _ _ _ _ Habsent).
    split; [reflexivity|]. split; reflexivity.
  - cbn [world journal sent]. rewrite length_app, Nat.add_1_r. exact H1.
Qed.

End Deleting.

(** ** What every call keeps *)

Section Sessions.

Variable Others : Type.
Variables (limits : PaginationLimits) (env : Env)
  (deleteFault : nat -> option StoreError).
Implicit Types (l : Ledger Others) (w : World Others) (c : Call Others).

Lemma rows_after_addRoute (body : RawBody Others) w :
  rows (snd (addRoute env body w)) = rows w \/
  exists v : Entity Others,
    existsb (has_key (entityId v)) (rows w) = false /\
    rows (snd (addRoute env body w)) = rows w ++ [stored v].
Proof.
  unfold addRoute, zValidator.
  destruct (addEntitySchema body) as [data|]; [|now left].
  unfold bind at 1. unfold mint. unfold insert, bind, issue, table. simpl.
  destruct (fault env (List.length (journal w))); simpl; [now left|].
  destruct (existsb _ (rows w)) eqn:Hfresh; simpl; [now left|].
  right. eexists {| entityId := _; name := _; others := _ |}.
  split; [exact Hfresh | reflexivity].
Qed.

Lemma keys_after_editRoute (param : string) (body : RawBody Others) w :
  map entityId (rows (snd (editRoute env param body w))) = map entityId (rows w).
Proof.
  unfold editRoute, zValidator.
  destruct (paramSchema param) as [id|]; [|reflexivity].
  destruct (editEntitySchema body) as [data|]; [|reflexivity].
  unfold bind at 1. unfold select, bind, issue, table. simpl.
  destruct (fault env (List.length (journal w))); simpl; [reflexivity|].
  destruct (Nat.eqb _ 0); simpl; [reflexivity|].
  unfold update, bind, issue, table, store. simpl.
  destruct (fault env _); simpl; [reflexivity|].
  apply assign_keeps_keys.
Qed.

Lemma rows_after_deleteRoute (param : string) l :
  rows (world (snd (deleteRoute env deleteFault param l))) = rows (world l) \/
  exists id : Uuid,
    rows (world (snd (deleteRoute env deleteFault param l))) =
    filter (fun r => negb (has_key id r)) (rows (world l)).
Proof.
  unfold deleteRoute. destruct (paramSchema param) as [id|]; [|now left].
  unfold bind at 1. unfold on_table, select, bind, issue, table. simpl.
  destruct (fault env (List.length (journal (world l)))); simpl; [now left|].
  destruct (hd_error _); simpl; [|now left].
  unfold delete. simpl. destruct (deleteFault _); simpl; [now left|].
  right. exists id. reflexivity.
Qed.

Lemma world_after_reply (m : Async (World Others) (Response Others)) l :
  world (snd ((r <- on_table m ;; ret (reply r)) l)) = snd (m (world l)).
Proof.
  unfold bind, on_table. destruct (m (world l)) as [[r|e] w']; reflexivity.
Qed.

(** What one call does to the keys of the table. *)
Lemma keys_after_call c l :
  (NoDup (keys l) ->
   NoDup (keys (snd (entityRoute limits env deleteFault c l)))) /\
  (is_delete c = false ->
   incl (keys l) (keys (snd (entityRoute limits env deleteFault c l)))) /\
  (is_add c = false ->
   incl (keys (snd (entityRoute limits env deleteFault c l))) (keys l)).
Proof.
  unfold keys. destruct c as [q | body | param | param body | param];
    cbn [entityRoute is_delete is_add]; rewrite ?world_after_reply.
  - rewrite (listRoute_reads_only _ limits env q (world l)).
    repeat split; auto using incl_refl.
  - destruct (rows_after_addRoute body (world l)) as [-> | (v & Hfresh & ->)].
    + repeat split; auto using incl_refl.
    + split; [|split].
      * intros Hnd. exact (insert_keeps_keys_distinct _ v _ Hnd Hfresh).
      * intros _. rewrite map_app. apply incl_appl, incl_refl.
      * discriminate.
  - rewrite (getRoute_reads_only _ env param (world l)).
    repeat split; auto using incl_refl.
  - rewrite keys_after_editRoute. repeat split; auto using incl_refl.
  - destruct (rows_after_deleteRoute param l) as [-> | (id & ->)].
    + repeat split; auto using incl_refl.
    + split; [|split].
      * intros Hnd. now apply NoDup_map_filter.
      * discriminate.
      * intros _ k Hk. apply in_map_iff in Hk as (x & <- & Hx).
        apply filter_In in Hx as [Hx _]. now apply in_map.
Qed.

(** X13. Whatever calls the feature serves, in whatever order and with
    whatever outcomes, the keys of the table stay distinct. *)
Theorem session_keeps_keys_distinct (calls : list (Call Others)) l :
  NoDup (keys l) -> NoDup (keys (session limits env deleteFault calls l)).
Proof.
  revert l. induction calls as [|c calls IH]; intros l Hnd; simpl.
  - exact Hnd.
  - apply IH. now apply (keys_after_call c l).
Qed.

(** X14. Only delete calls remove rows: after calls none of which is a
    delete, every key the table had is still a key of the table. *)
Theorem session_without_delete (calls : list (Call Others)) l :
  forallb (fun c => negb (is_delete c)) calls = true ->
  incl (keys l) (keys (session limits env deleteFault calls l)).
Proof.
  revert l. induction calls as [|c calls IH]; intros l Hcalls; simpl.
  - apply incl_refl.
  - simpl in Hcalls. apply andb_true_iff in Hcalls as [Hc Hrest].
    apply negb_true_iff in Hc.
    eapply incl_tran; [|apply IH; exact Hrest].
    now apply (keys_after_call c l).
Qed.

(** X15. Only add calls create rows: after calls none of which is an add,
    every key of the table was a key of the table before. *)
Theorem session_without_add (calls : list (Call Others)) l :
  forallb (fun c => negb (is_add c)) calls = true ->
  incl (keys (session limits env deleteFault calls l)) (keys l).
Proof.
  revert l. induction calls as [|c calls IH]; intros l Hcalls; simpl.
  - apply incl_refl.
  - simpl in Hcalls. apply andb_true_iff in Hcalls as [Hc Hrest].
    apply negb_true_iff in Hc.
    eapply incl_tran; [apply IH; exact Hrest|].
    now apply (keys_after_call c l).
Qed.

(** X16. A call that does not succeed changes no row: when it rejects, or is
    answered with a not-found or a validation error, the rows are as before. *)
Theorem unsuccessful_call_changes_nothing c l :
  unsuccessful (fst (entityRoute limits env deleteFault c l)) = true ->
  rows (world (snd (entityRoute limits env deleteFault c l))) = rows (world l).
Proof.
  destruct c as [q | body | param | param body | param]; cbn [entityRoute].
  - intros _. rewrite world_after_reply. apply listRoute_reads_only.
  - unfold bind, on_table, addRoute, zValidator.
    destruct (addEntitySchema body) as [data|]; [|reflexivity].
    unfold bind at 1. unfold mint. unfold insert, bind, issue, table. simpl.
    destruct (fault env (List.length (journal (world l)))); simpl; [reflexivity|].
    destruct (existsb _ (rows (world l))); simpl; [reflexivity | discriminate].
  - intros _. rewrite world_after_reply. apply getRoute_reads_only.
  - unfold bind, on_table, editRoute, zValidator.
    destruct (paramSchema param) as [id|]; [|reflexivity].
    destruct (editEntitySchema body) as [data|]; [|reflexivity].
    unfold bind at 1. unfold select, bind, issue, table. simpl.
    destruct (fault env (List.length (journal (world l)))); simpl; [reflexivity|].
    destruct (Nat.eqb _ 0); simpl; [reflexivity|].
    unfold update, bind, issue, table, store. simpl.
    destruct (fault env _); simpl; [reflexivity | discriminate].
  - unfold deleteRoute. destruct (paramSchema param) as [id|]; [|reflexivity].
    unfold bind at 1. unfold on_table, select, bind, issue, table. simpl.
    destruct (fault env (List.length (journal (world l)))); simpl; [reflexivity|].
    destruct (hd_error _); simpl; [|reflexivity].
    unfold delete. simpl. destruct (deleteFault _); simpl;
      [reflexivity | discriminate].
Qed.

End Sessions.

(** ** File names and the S3 helper *)

(** The segments of a text: the text itself when it has no separator,
    otherwise at least two segments, the last of which is what follows the
    last separator. *)
Lemma split_on_shape (sep : ascii) (s : text) :
  (~ In sep s /\ split_on sep s = [s]) \/
  (exists stem e first segs,
     s = stem ++ sep :: e /\ ~ In sep e /\
     split_on sep s = first :: segs /\ segs <> [] /\ last segs [] = e).
Proof.
  induction s as [|c s IH].
  - left. split; [intros [] | reflexivity].
  - simpl split_on. destruct (Ascii.eqb c sep) eqn:Hc.
    + apply Ascii.eqb_eq in Hc. subst c. right.
      destruct IH as [[Hno Hs] | (stem & e & first & segs & Hs & He & Hsp & Hne & Hl)].
      * exists [], s, [], [s]. rewrite Hs. repeat split; auto. discriminate.
      * exists (sep :: stem), e, [], (first :: segs). rewrite Hsp, Hs.
        repeat split; auto; [discriminate|].
        destruct segs; [congruence | exact Hl].
    + apply Ascii.eqb_neq in Hc.
      destruct IH as [[Hno Hs] | (stem & e & first & segs & Hs & He & Hsp & Hne & Hl)].
      * left. rewrite Hs. split; [|reflexivity].
        intros [H | H]; [congruence | contradiction].
      * right. exists (c :: stem), e, (c :: first), segs. rewrite Hsp, Hs.
        repeat split; auto.
Qed.

Lemma last_split_on (sep : ascii) (s : text) :
  ~ In sep (last (split_on sep s) []) /\
  (~ In sep s -> last (split_on sep s) [] = s) /\
  (In sep s -> exists stem, s = stem ++ sep :: last (split_on sep s) []).
Proof.
  destruct (split_on_shape sep s)
    as [[Hno Hs] | (stem & e & first & segs & Hs & He & Hsp & Hne & Hl)].
  - rewrite Hs. simpl. repeat split; auto. intros H. contradiction.
  - assert (E : last (split_on sep s) [] = e).
    { rewrite Hsp. destruct segs; [congruence | exact Hl]. }
    rewrite E. repeat split; auto.
    + intros Hno. exfalso. apply Hno. rewrite Hs. apply in_or_app. right. now left.
    + intros _. now exists stem.
Qed.

(** X17. The extension `uploadFile` takes from a file name has no dot in it.
    When the name has a dot, the name is some stem, a dot and the extension;
    when the name has no dot, the extension is the whole name. *)
Theorem fileExtension_of_name (name : string) :
  ~ In dot (list_ascii_of_string (fileExtension name)) /\
  (~ In dot (list_ascii_of_string name) -> fileExtension name = name) /\
  (In dot (list_ascii_of_string name) ->
   exists stem : string, name = (stem ++ "." ++ fileExtension name)%string).
Proof.
  unfold fileExtension.
  destruct (last_split_on dot (list_ascii_of_string name)) as (Hno & Hall & Hstem).
  remember (last (split_on dot (list_ascii_of_string name)) []) as e eqn:Ee.
  clear Ee. rewrite list_ascii_of_string_of_list_ascii.
  split; [exact Hno|]. split.
  - intros H. rewrite (Hall H). apply string_of_list_ascii_of_string.
  - intros H. destruct (Hstem H) as (stem & E).
    exists (string_of_list_ascii stem).
    rewrite <- (string_of_list_ascii_of_string name), E.
    now rewrite string_of_list_ascii_app.
Qed.

(** X18. The content type `uploadFile` gives an object is never empty and
    never longer than 255 characters; it is the type of the file whenever
    that type is within these bounds. *)
Theorem contentType_bounds (f : File) :
  (1 <= String.length (contentType f) <= 255)%nat /\
  ((1 <= String.length (file_type f) <= 255)%nat -> contentType f = file_type f).
Proof.
  unfold contentType.
  destruct (String.eqb (file_type f) EmptyString) eqn:He; simpl.
  - apply String.eqb_eq in He. rewrite He. simpl. split; [lia | intros [H _]; lia].
  - destruct (0 <? String.length (file_type f))%nat eqn:H0; simpl.
    + destruct (String.length (file_type f) <=? 255)%nat eqn:H1.
      * apply Nat.ltb_lt in H0. apply Nat.leb_le in H1.
        split; [lia | reflexivity].
      * apply Nat.leb_gt in H1. simpl. split; [lia | intros [_ H]; lia].
    + apply Nat.ltb_ge in H0. simpl. split; [lia | intros [H _]; lia].
Qed.

Lemma allowed_types_bounded (t : string) :
  includes ALLOWED_MIME_TYPES t = true -> (1 <= String.length t <= 255)%nat.
Proof.
  unfold includes, ALLOWED_MIME_TYPES. simpl.
  rewrite !orb_true_iff, !String.eqb_eq.
  intros [-> | [-> | [-> | [-> | [-> | [-> | [-> | H]]]]]]];
    try discriminate H; simpl; lia.
Qed.

(** X19. For a file the form schema accepts, the content type of the stored
    object is the type of the file (the fallback type is never used), the
    size is at most 50 * 1024 * 1024 bytes and the name at most 250
    characters. *)
Theorem accepted_file (f : File) :
  file_issues f = [] ->
  contentType f = file_type f /\
  includes ALLOWED_MIME_TYPES (file_type f) = true /\
  file_size f <= 52428800 /\
  (String.length (file_name f) <= 250)%nat.
Proof.
  unfold file_issues.
  destruct (file_size f <=? MAX_FILE_SIZE) eqn:Hs; [|discriminate].
  destruct (includes ALLOWED_MIME_TYPES (file_type f)) eqn:Ht; [|discriminate].
  destruct (String.length (file_name f) <=? 250)%nat eqn:Hn; [|discriminate].
  intros _. apply Z.leb_le in Hs. apply Nat.leb_le in Hn.
  repeat split; auto.
  apply contentType_bounds. now apply allowed_types_bounded.
Qed.

Lemma find_other_key (key k : string) (l : list (string * S3Object)) :
  String.eqb k key = false ->
  find (fun entry => String.eqb (fst entry) k) (filter (other_key key) l) =
  find (fun entry => String.eqb (fst entry) k) l.
Proof.
  intros Hk. induction l as [|[k' o'] l IH]; simpl; [reflexivity|].
  unfold other_key at 1. simpl. destruct (String.eqb k' k) eqn:E.
  - apply String.eqb_eq in E. subst k'. rewrite Hk. simpl.
    now rewrite String.eqb_refl.
  - destruct (String.eqb k' key); simpl; [exact IH|]. now rewrite E.
Qed.

Lemma find_removed_key (key : string) (l : list (string * S3Object)) :
  find (fun entry => String.eqb (fst entry) key) (filter (other_key key) l) = None.
Proof.
  induction l as [|[k' o'] l IH]; simpl; [reflexivity|].
  unfold other_key at 1. simpl. destruct (String.eqb k' key) eqn:E; simpl;
    [exact IH|]. now rewrite E.
Qed.

Lemma object_at_put (key : string) (o : S3Object) (st : Storage)
  (c n : nat) (k : string) :
  object_at k {| objects := (key, o) :: filter (other_key key) (objects st);
                 commands := c; named := n |} =
  if String.eqb k key then Some o else object_at k st.
Proof.
  unfold object_at. simpl. rewrite String.eqb_sym.
  destruct (String.eqb k key) eqn:Hk; [reflexivity|].
  now rewrite (find_other_key _ _ _ Hk).
Qed.

Lemma object_at_removed (key : string) (l : list (string * S3Object))
  (c n : nat) (k : string) :
  object_at k {| objects := filter (other_key key) l;
                 commands := c; named := n |} =
  if String.eqb k key then None
  else object_at k {| objects := l; commands := c; named := n |}.
Proof.
  unfold object_at. simpl. destruct (String.eqb k key) eqn:Hk.
  - apply String.eqb_eq in Hk. subst k. now rewrite find_removed_key.
  - now rewrite (find_other_key _ _ _ Hk).
Qed.

(** X20. When the PUT does not fail, `uploadFile` resolves with the path
    [parentId/uuid.extension], the object under that path has the content of
    the file and the content type above, and every other object of the bucket
    is as before. *)
Theorem uploadFile_stores env (f : File) (parentId : string) (st : Storage) :
  fault env (commands st) = None ->
  exists st',
    uploadFile env f parentId st =
      (Resolved (parentId ++ "/" ++ v7 env (named st) ++ "." ++
                 fileExtension (file_name f))%string, st') /\
    object_at (parentId ++ "/" ++ v7 env (named st) ++ "." ++
               fileExtension (file_name f))%string st' =
      Some {| Body := file_content f; ContentType := contentType f |} /\
    forall k,
      k <> (parentId ++ "/" ++ v7 env (named st) ++ "." ++
            fileExtension (file_name f))%string ->
      object_at k st' = object_at k st.
Proof.
  intros H0. unfold uploadFile, bind, send. cbn [commands objects]. rewrite H0.
  eexists. split; [reflexivity|]. split.
  - rewrite object_at_put. now rewrite String.eqb_refl.
  - intros k Hk. rewrite object_at_put.
    apply String.eqb_neq in Hk. now rewrite Hk.
Qed.

(** X21. When the PUT fails, `uploadFile` rejects with that failure, gives
    no path, and the bucket is as before. *)
Theorem uploadFile_fails env (f : File) (parentId : string) (st : Storage) e :
  fault env (commands st) = Some e ->
  fst (uploadFile env f parentId st) = Rejected e /\
  objects (snd (uploadFile env f parentId st)) = objects st.
Proof.
  intros H0. unfold uploadFile, bind, send. cbn [commands]. rewrite H0.
  split; reflexivity.
Qed.

(** X22. Deleting what was uploaded: after `uploadFile` and `deleteFile` of
    the path it returned, no object is under that path and every other object
    of the bucket is as before the upload. *)
Theorem deleteFile_after_uploadFile env (f : File) (parentId : string)
  (st : Storage) :
  fault env (commands st) = None ->
  fault env (S (commands st)) = None ->
  exists path st1 st2,
    uploadFile env f parentId st = (Resolved path, st1) /\
    deleteFile env path st1 = (Resolved tt, st2) /\
    object_at path st2 = None /\
    forall k, k <> path -> object_at k st2 = object_at k st.
Proof.
  intros H0 H1. unfold uploadFile, bind, send. cbn [commands objects]. rewrite H0.
  eexists. eexists. eexists. split; [reflexivity|].
  unfold deleteFile, send. cbn [commands objects]. rewrite H1.
  split; [reflexivity|]. split.
  - rewrite object_at_removed. now rewrite String.eqb_refl.
  - intros k Hk. rewrite object_at_removed.
    apply String.eqb_neq in Hk. rewrite Hk. rewrite object_at_put.
    now rewrite Hk.
Qed.

(** ** Search parameters *)

Lemma params_get_set (key value : string) (p : SearchParams) :
  params_get key (params_set key value p) = Some value.
Proof.
  unfold params_get. induction p as [|[k v] p IH]; simpl.
  - now rewrite String.eqb_refl.
  - destruct (String.eqb k key) eqn:E; simpl.
    + now rewrite String.eqb_refl.
    + now rewrite E.
Qed.

Lemma params_get_delete (key : string) (p : SearchParams) :
  params_get key (params_delete key p) = None.
Proof.
  unfold params_get, params_delete. induction p as [|[k v] p IH]; simpl;
    [reflexivity|].
  destruct (String.eqb k key) eqn:E; simpl; [exact IH|]. now rewrite E.
Qed.

Lemma find_params_delete_other (key other : string) (p : SearchParams) :
  String.eqb other key = false ->
  find (fun entry => String.eqb (fst entry) other) (params_delete key p) =
  find (fun entry => String.eqb (fst entry) other) p.
Proof.
  intros H. unfold params_delete.
  induction p as [|[k v] p IH]; simpl; [reflexivity|].
  destruct (String.eqb k key) eqn:E; simpl.
  - apply String.eqb_eq in E. subst k. rewrite String.eqb_sym, H. exact IH.
  - destruct (String.eqb k other); [reflexivity | exact IH].
Qed.

Lemma params_get_delete_other (key other : string) (p : SearchParams) :
  String.eqb other key = false ->
  params_get other (params_delete key p) = params_get other p.
Proof.
  intros H. unfold params_get. now rewrite (find_params_delete_other _ _ _ H).
Qed.

Lemma params_get_set_other (key value other : string) (p : SearchParams) :
  String.eqb other key = false ->
  params_get other (params_set key value p) = params_get other p.
Proof.
  intros H. unfold params_get.
  assert (E : find (fun entry => String.eqb (fst entry) other)
                (params_set key value p) =
              find (fun entry => String.eqb (fst entry) other) p);
    [|now rewrite E].
  induction p as [|[k v] p IH]; simpl.
  - now rewrite String.eqb_sym, H.
  - destruct (String.eqb k key) eqn:Ek; simpl.
    + apply String.eqb_eq in Ek. subst k. rewrite String.eqb_sym, H.
      exact (find_params_delete_other key other p H).
    + destruct (String.eqb k other); [reflexivity | exact IH].
Qed.

Lemma params_delete_idempotent (key : string) (p : SearchParams) :
  params_delete key (params_delete key p) = params_delete key p.
Proof.
  unfold params_delete. induction p as [|[k v] p IH]; simpl; [reflexivity|].
  destruct (String.eqb k key) eqn:E; simpl; [exact IH|].
  rewrite E. simpl. now rewrite IH.
Qed.

Lemma params_delete_commute (k1 k2 : string) (p : SearchParams) :
  params_delete k1 (params_delete k2 p) = params_delete k2 (params_delete k1 p).
Proof.
  unfold params_delete. induction p as [|[k v] p IH]; simpl; [reflexivity|].
  destruct (String.eqb k k2) eqn:E2, (String.eqb k k1) eqn:E1; simpl;
    rewrite ?E1, ?E2; simpl; now rewrite IH.
Qed.

Lemma params_delete_set (key value : string) (p : SearchParams) :
  params_delete key (params_set key value p) = params_delete key p.
Proof.
  induction p as [|[k v] p IH]; simpl.
  - now rewrite String.eqb_refl.
  - destruct (String.eqb k key) eqn:E; simpl.
    + rewrite String.eqb_refl. simpl. apply params_delete_idempotent.
    + rewrite E. simpl. now rewrite IH.
Qed.

Lemma params_delete_set_other (key value other : string) (p : SearchParams) :
  String.eqb other key = false ->
  params_delete other (params_set key value p) =
  params_set key value (params_delete other p).
Proof.
  intros H. induction p as [|[k v] p IH]; simpl.
  - now rewrite String.eqb_sym, H.
  - destruct (String.eqb k key) eqn:E; simpl.
    + apply String.eqb_eq in E. subst k. rewrite String.eqb_sym, H. simpl.
      rewrite String.eqb_refl. f_equal. apply params_delete_commute.
    + destruct (String.eqb k other) eqn:Eo; simpl; [exact IH|].
      rewrite E. now rewrite IH.
Qed.

Lemma params_set_idempotent (key value : string) (p : SearchParams) :
  params_set key value (params_set key value p) = params_set key value p.
Proof.
  induction p as [|[k v] p IH]; simpl.
  - now rewrite String.eqb_refl.
  - destruct (String.eqb k key) eqn:E; simpl.
    + rewrite String.eqb_refl. now rewrite params_delete_idempotent.
    + rewrite E. now rewrite IH.
Qed.

Lemma params_set_delete (key value : string) (p : SearchParams) :
  params_set key value (params_delete key p) = params_delete key p ++ [(key, value)].
Proof.
  unfold params_delete. induction p as [|[k v] p IH]; simpl; [reflexivity|].
  destruct (String.eqb k key) eqn:E; simpl; [exact IH|].
  rewrite E. now rewrite IH.
Qed.

(** Setting one key, then another, then the first again changes nothing
    more. *)
Lemma params_set_again (k1 v1 k2 v2 : string) (p : SearchParams) :
  String.eqb k2 k1 = false ->
  params_set k1 v1 (params_set k2 v2 (params_set k1 v1 p)) =
  params_set k2 v2 (params_set k1 v1 p).
Proof.
  intros H. assert (H' : String.eqb k1 k2 = false) by now rewrite String.eqb_sym.
  induction p as [|[k v] p IH]; simpl.
  - rewrite H'. simpl. rewrite String.eqb_refl. simpl. now rewrite H.
  - destruct (String.eqb k k1) eqn:E1; simpl.
    + rewrite H'. simpl. rewrite String.eqb_refl. f_equal.
      rewrite (params_delete_set_other k2 v2 k1 _ H').
      now rewrite params_delete_idempotent.
    + destruct (String.eqb k k2) eqn:E2; simpl.
      * rewrite H. f_equal.
        rewrite (params_delete_set_other k1 v1 k2 _ H).
        apply params_set_idempotent.
      * rewrite E1. now rewrite IH.
Qed.

Lemma params_delete_none (key : string) (p : SearchParams) :
  filter (fun e => String.eqb (fst e) key) (params_delete key p) = [].
Proof.
  unfold params_delete. induction p as [|[k v] p IH]; simpl; [reflexivity|].
  destruct (String.eqb k key) eqn:E; simpl; [exact IH|]. now rewrite E.
Qed.

Lemma params_set_single (key value : string) (p : SearchParams) :
  List.length (filter (fun e => String.eqb (fst e) key)
                 (params_set key value p)) = 1%nat.
Proof.
  induction p as [|[k v] p IH]; simpl.
  - now rewrite String.eqb_refl.
  - destruct (String.eqb k key) eqn:E; simpl.
    + rewrite String.eqb_refl. simpl. now rewrite params_delete_none.
    + rewrite E. exact IH.
Qed.

(** X23. After a search or a clear the location has exactly one `page`
    entry, with the value 1, however many it had; and the entries under keys
    other than `name` and `page` are the same, in the same order. *)
Theorem search_resets_page (bar : SearchBar) :
  let others p :=
    params_delete "page" (params_delete "name" p) in
  (params_get "page" (searchParams (handleSearch bar)) = Some "1"%string /\
   List.length (filter (fun e => String.eqb (fst e) "page")
                  (searchParams (handleSearch bar))) = 1%nat /\
   others (searchParams (handleSearch bar)) = others (searchParams bar)) /\
  (params_get "page" (searchParams (handleClear bar)) = Some "1"%string /\
   List.length (filter (fun e => String.eqb (fst e) "page")
                  (searchParams (handleClear bar))) = 1%nat /\
   others (searchParams (handleClear bar)) = others (searchParams bar)).
Proof.
  intros others. unfold others, handleSearch, handleClear; cbn [searchParams].
  split; (split; [apply params_get_set | split; [apply params_set_single|]]).
  - rewrite (params_delete_set_other "page" "1" "name" _ eq_refl),
      params_delete_set. f_equal.
    destruct (typed bar) as [|c n]; [apply params_delete_idempotent|].
    apply params_delete_set.
  - rewrite (params_delete_set_other "page" "1" "name" _ eq_refl),
      params_delete_set. f_equal.
    apply params_delete_idempotent.
Qed.

Lemma search_sets_table_name_aux (bar : SearchBar) :
  (typed bar <> EmptyString ->
   table_name (searchParams (handleSearch bar)) = typed bar) /\
  (typed bar = EmptyString ->
   table_name (searchParams (handleSearch bar)) = typed bar).
Proof.
  unfold table_name, handleSearch; cbn [searchParams].
  rewrite !(params_get_set_other "page" "1" "name" _ eq_refl). split.
  - intros Hn. destruct (typed bar) as [|c n]; [congruence|].
    now rewrite params_get_set.
  - intros ->. now rewrite params_get_delete.
Qed.

(** X24. After a search with a text in the input, the todo table asks the
    list for that text; after a search with nothing in the input, or after a
    clear, it asks for the empty name and the location has no `name` entry. *)
Theorem search_sets_table_name (bar : SearchBar) :
  (typed bar <> EmptyString ->
   table_name (searchParams (handleSearch bar)) = typed bar) /\
  (typed bar = EmptyString ->
   table_name (searchParams (handleSearch bar)) = EmptyString /\
   params_get "name" (searchParams (handleSearch bar)) = None) /\
  table_name (searchParams (handleClear bar)) = EmptyString /\
  params_get "name" (searchParams (handleClear bar)) = None.
Proof.
  unfold table_name, handleSearch, handleClear; cbn [searchParams].
  rewrite !(params_get_set_other "page" "1" "name" _ eq_refl).
  split; [|split; [|split]].
  - intros Hn. destruct (typed bar) as [|c n]; [congruence|].
    now rewrite params_get_set.
  - intros ->. now rewrite params_get_delete.
  - now rewrite params_get_delete.
  - apply params_get_delete.
Qed.

(** X25. A search survives a reload: the bar mounted on the location a
    search has written shows the text that was searched for, and a second
    search changes nothing. *)
Theorem search_round_trip (bar : SearchBar) :
  mount (searchParams (handleSearch bar)) = handleSearch bar /\
  handleSearch (handleSearch bar) = handleSearch bar.
Proof.
  assert (Hname : table_name (searchParams (handleSearch bar)) = typed bar).
  { destruct (search_sets_table_name_aux bar) as [H1 H2].
    destruct (typed bar) as [|c n] eqn:E.
    - now apply H2.
    - apply H1. discriminate. }
  split.
  - unfold mount. fold (table_name (searchParams (handleSearch bar))).
    rewrite Hname. reflexivity.
  - unfold handleSearch at 1 3. cbn [typed searchParams].
    unfold handleSearch. cbn [typed searchParams]. f_equal.
    destruct (typed bar) as [|c n].
    + rewrite (params_delete_set_other "page" "1" "name" _ eq_refl).
      rewrite params_delete_idempotent. apply params_set_idempotent.
    + rewrite (params_set_again "name" _ "page" "1" _ eq_refl).
      apply params_set_idempotent.
Qed.

(** ** Wildcards and narrowing in the name filter *)

Lemma like_all_percent (p x : text) :
  p <> [] -> forallb (fun c => Ascii.eqb c percent) p = true ->
  like_match p x = true.
Proof.
  revert x. induction p as [|c p IH]; intros x Hne Hall; [congruence|].
  simpl in Hall. apply andb_true_iff in Hall as [Hc Hall].
  apply Ascii.eqb_eq in Hc. subst c. apply like_percent_iff.
  destruct p as [|d p].
  - exists x, []. rewrite app_nil_r. auto.
  - exists [], x. split; [reflexivity|]. apply IH; [discriminate | exact Hall].
Qed.

Lemma forallb_app_l {A} (f : A -> bool) (l l' : list A) :
  forallb f (l ++ l') = true -> forallb f l = true.
Proof. rewrite forallb_app, andb_true_iff. now intros [H _]. Qed.

Lemma filter_length_le {A} (f g : A -> bool) (l : list A) :
  (forall x, f x = true -> g x = true) ->
  (List.length (filter f l) <= List.length (filter g l))%nat.
Proof.
  intros H. induction l as [|x l IH]; simpl; [lia|].
  destruct (f x) eqn:Hf.
  - rewrite (H x Hf). simpl. lia.
  - destruct (g x); simpl; lia.
Qed.

Section NameFilter.

Variable Others : Type.
Implicit Types (w : World Others) (env : Env) (r : Entity Others).

Lemma plain_narrows (s t : string) r :
  forallb plain (list_ascii_of_string (s ++ t)) = true ->
  name_matches (Some (s ++ t)%string) r = true ->
  name_matches (Some s) r = true.
Proof.
  intros Hplain H. destruct s as [|c s]; [reflexivity|].
  rewrite list_ascii_of_string_app in Hplain.
  pose proof (forallb_app_l _ _ _ Hplain) as Hs.
  unfold name_matches, like_string in *. simpl append in H.
  rewrite name_pattern_text in *.
  change (list_ascii_of_string (String c (s ++ t)))
    with (list_ascii_of_string (String c s ++ t)) in H.
  rewrite list_ascii_of_string_app in H.
  apply (like_plain_contains _ _ Hplain) in H as (pre & post & E).
  apply (like_plain_contains _ _ Hs).
  exists pre, (list_ascii_of_string t ++ post). now rewrite E, <- app_assoc.
Qed.

(** X26. Typing more narrows the list: for a name filter of plain
    characters (no [%], [_] or backslash), a list request for a longer text
    counts at most as many rows as the request for its beginning. *)
Theorem listRoute_narrows limits env (pn ps : QueryNumber) (s t : string) w v :
  forallb plain (list_ascii_of_string (s ++ t)) = true ->
  listEntitiesSchema limits
    {| raw_pageNumber := pn; raw_pageSize := ps; raw_name := Some s |} = Some v ->
  fault env (List.length (journal w)) = None ->
  fault env (S (List.length (journal w))) = None ->
  exists p1 p2,
    fst (listRoute limits env
           {| raw_pageNumber := pn; raw_pageSize := ps; raw_name := Some s |} w)
      = Resolved (json_page p1 OK) /\
    fst (listRoute limits env
           {| raw_pageNumber := pn; raw_pageSize := ps;
              raw_name := Some (s ++ t)%string |} w)
      = Resolved (json_page p2 OK) /\
    totalCount p2 <= totalCount p1.
Proof.
  intros Hplain Hv H0 H1.
  assert (Hv2 : listEntitiesSchema limits
            {| raw_pageNumber := pn; raw_pageSize := ps;
               raw_name := Some (s ++ t)%string |} =
          Some {| list_pageNumber := list_pageNumber v;
                  list_pageSize := list_pageSize v;
                  list_name := Some (s ++ t)%string |}).
  { unfold listEntitiesSchema in *. simpl in *.
    destruct (positive_integer 1 _ pn); [|discriminate].
    destruct (positive_integer 10 _ ps); [|discriminate].
    injection Hv as <-. reflexivity. }
  assert (Hname : list_name v = Some s).
  { now destruct (listEntitiesSchema_valid _ _ _ Hv) as (_ & _ & ->). }
  rewrite (listRoute_ok _ _ _ _ _ _ Hv H0 H1), (listRoute_ok _ _ _ _ _ _ Hv2 H0 H1).
  eexists. eexists. split; [reflexivity|]. split; [reflexivity|].
  unfold answer. cbn [totalCount createPage list_name]. rewrite Hname.
  apply inj_le. unfold matching. apply filter_length_le.
  intros r. now apply plain_narrows.
Qed.

(** X27. The percent sign is a wildcard for the client too: a list request
    whose name consists of percent signs only counts every row of the
    table. *)
Theorem listRoute_percent_counts_all limits env q w v (s : string) :
  listEntitiesSchema limits q = Some v ->
  raw_name q = Some s ->
  forallb (fun c => Ascii.eqb c percent) (list_ascii_of_string s) = true ->
  fault env (List.length (journal w)) = None ->
  fault env (S (List.length (journal w))) = None ->
  exists p,
    fst (listRoute limits env q w) = Resolved (json_page p OK) /\
    totalCount p = Z.of_nat (List.length (rows w)).
Proof.
  intros Hv Hs Hpercent H0 H1.
  destruct (listEntitiesSchema_valid _ _ _ Hv) as (_ & _ & Hname).
  rewrite (listRoute_ok _ _ _ _ _ _ Hv H0 H1).
  eexists. split; [reflexivity|].
  unfold answer. cbn [totalCount createPage]. rewrite Hname, Hs. f_equal. f_equal.
  unfold matching. apply filter_all. intros r _.
  destruct s as [|c s]; [reflexivity|].
  unfold name_matches, like_string. rewrite name_pattern_text.
  apply like_all_percent; [discriminate|].
  change (forallb (fun c0 => Ascii.eqb c0 percent)
            ([percent] ++ list_ascii_of_string (String c s) ++ [percent]) = true).
  rewrite !forallb_app, Hpercent. reflexivity.
Qed.

End NameFilter.

(** ** The further theorems at work on the todos *)

Lemma two_todos_distinct : NoDup (map entityId (rows two_todos)).
Proof. repeat constructor; simpl; intuition discriminate. Qed.

Lemma getRoute_missing_key_witness :
  exists w',
    getRoute calm no_such_id two_todos =
      (Resolved (notFoundError (not_found no_such_id)), w') /\
    rows w' = rows two_todos /\
    journal w' =
      journal two_todos ++ [Select (Some (eq_ col_entityId no_such_id)) 1 None].
Proof.
  apply (getRoute_missing_key bool calm no_such_id two_todos); reflexivity.
Defined.

Lemma getRoute_finds_row_witness :
  exists w',
    getRoute calm DOG_ID two_todos = (Resolved (json_item (Some dog) OK), w') /\
    rows w' = rows two_todos.
Proof.
  apply (getRoute_finds_row bool calm DOG_ID two_todos dog);
    try reflexivity.
  - exact two_todos_distinct.
  - right. left. reflexivity.
Defined.

Lemma getRoute_after_addRoute_witness :
  exists item w1,
    addRoute calm feed_cat two_todos =
      (Resolved (json_item (Some item) CREATED), w1) /\
    fst (getRoute calm (entityId item) w1) = Resolved (json_item (Some item) OK).
Proof.
  apply (getRoute_after_addRoute bool calm feed_cat two_todos
           {| add_name := "Feed cat"; add_others := false |});
    try reflexivity.
  exact two_todos_distinct.
Defined.

Lemma getRoute_after_editRoute_witness :
  exists item w1,
    editRoute calm DOG_ID walked two_todos =
      (Resolved (json_item (Some item) OK), w1) /\
    entityId item = entityId dog /\
    name item = "walk dog twice"%string /\
    others item = true /\
    fst (getRoute calm DOG_ID w1) = Resolved (json_item (Some item) OK).
Proof.
  apply (getRoute_after_editRoute bool calm DOG_ID walked two_todos
           {| edit_name := "walk dog twice"; edit_others := true |} dog);
    try reflexivity.
  - exact two_todos_distinct.
  - right. left. reflexivity.
Defined.

Lemma editRoute_twice_witness :
  exists item w1 w2,
    editRoute calm DOG_ID walked two_todos =
      (Resolved (json_item (Some item) OK), w1) /\
    editRoute calm DOG_ID walked w1 =
      (Resolved (json_item (Some item) OK), w2) /\
    rows w2 = rows w1.
Proof.
  apply (editRoute_twice bool calm DOG_ID walked two_todos
           {| edit_name := "walk dog twice"; edit_others := true |} dog);
    try reflexivity.
  - exact two_todos_distinct.
  - right. left. reflexivity.
Defined.

Lemma addRoute_taken_key_witness :
  fst (addRoute stuck feed_cat two_todos) =
    Rejected (UniqueViolation (entityId milk)) /\
  rows (snd (addRoute stuck feed_cat two_todos)) = rows two_todos.
Proof.
  apply (addRoute_taken_key bool stuck feed_cat two_todos
           {| add_name := "Feed cat"; add_others := false |}); reflexivity.
Defined.

Lemma listRoute_after_addRoute_witness :
  exists item w1 p,
    addRoute calm feed_cat two_todos =
      (Resolved (json_item (Some item) CREATED), w1) /\
    fst (listRoute limits100 calm (page_query 1 10 None) w1) =
      Resolved (json_page p OK) /\
    totalCount p =
      Z.of_nat (List.length (matching None (rows two_todos))) +
      (if name_matches None item then 1 else 0).
Proof.
  apply (listRoute_after_addRoute bool limits100 calm feed_cat
           (page_query 1 10 None) two_todos
           {| add_name := "Feed cat"; add_others := false |}
           {| list_pageNumber := 1; list_pageSize := 10; list_name := None |});
    reflexivity.
Defined.

Lemma deleteRoute_missing_key_witness :
  exists l',
    deleteRoute calm deletes_work no_such_id (fresh_ledger two_todos) =
      (Resolved (reply (notFoundError (not_found no_such_id))), l') /\
    rows (world l') = rows two_todos /\
    deleted l' = [].
Proof.
  apply (deleteRoute_missing_key bool calm deletes_work no_such_id
           (fresh_ledger two_todos)); reflexivity.
Defined.

Lemma deleteRoute_removes_row_witness :
  exists l',
    deleteRoute calm deletes_work DOG_ID (fresh_ledger two_todos) =
      (Resolved (body_null NO_CONTENT), l') /\
    rows (world l') = [milk] /\
    deleted l' = [Some (eq_ col_entityId DOG_ID)].
Proof.
  apply (deleteRoute_removes_row bool calm deletes_work DOG_ID
           (fresh_ledger two_todos) [milk] dog []); try reflexivity.
  exact two_todos_distinct.
Defined.

Lemma getRoute_after_deleteRoute_witness :
  exists l1,
    deleteRoute calm deletes_work DOG_ID (fresh_ledger two_todos) =
      (Resolved (body_null NO_CONTENT), l1) /\
    fst (on_table (getRoute calm DOG_ID) l1) =
      Resolved (notFoundError (not_found DOG_ID)).
Proof.
  apply (getRoute_after_deleteRoute bool calm deletes_work DOG_ID
           (fresh_ledger two_todos) dog); try reflexivity.
  - exact two_todos_distinct.
  - right. left. reflexivity.
Defined.

Lemma deleteRoute_twice_witness :
  exists l1 l2,
    deleteRoute calm deletes_work DOG_ID (fresh_ledger two_todos) =
      (Resolved (body_null NO_CONTENT), l1) /\
    deleteRoute calm deletes_work DOG_ID l1 =
      (Resolved (reply (notFoundError (not_found DOG_ID))), l2) /\
    rows (world l2) = rows (world l1) /\
    deleted l2 = deleted l1.
Proof.
  apply (deleteRoute_twice bool calm deletes_work DOG_ID
           (fresh_ledger two_todos) dog); try reflexivity.
  - exact two_todos_distinct.
  - right. left. reflexivity.
Defined.

Lemma session_keeps_keys_distinct_witness :
  NoDup (keys (session limits100 calm deletes_work busy_day
                 (fresh_ledger two_todos))).
Proof.
  apply (session_keeps_keys_distinct bool limits100 calm deletes_work busy_day
           (fresh_ledger two_todos)).
  exact two_todos_distinct.
Defined.

Lemma session_without_delete_witness :
  incl (keys (fresh_ledger two_todos))
       (keys (session limits100 calm deletes_work
                [call_get no_such_id; call_add feed_cat;
                 call_edit DOG_ID walked]
                (fresh_ledger two_todos))).
Proof.
  apply (session_without_delete bool limits100 calm deletes_work
           [call_get no_such_id; call_add feed_cat; call_edit DOG_ID walked]
           (fresh_ledger two_todos)).
  reflexivity.
Defined.

Lemma session_without_add_witness :
  incl (keys (session limits100 calm deletes_work
                (quiet_day ++ [call_delete DOG_ID]) (fresh_ledger two_todos)))
       (keys (fresh_ledger two_todos)).
Proof.
  apply (session_without_add bool limits100 calm deletes_work
           (quiet_day ++ [call_delete DOG_ID]) (fresh_ledger two_todos)).
  reflexivity.
Defined.

Lemma unsuccessful_call_changes_nothing_witness :
  rows (world (snd (entityRoute limits100 flaky deletes_work
                      (call_edit DOG_ID walked) (fresh_ledger two_todos)))) =
  rows two_todos.
Proof.
  apply (unsuccessful_call_changes_nothing bool limits100 flaky deletes_work
           (call_edit DOG_ID walked) (fresh_ledger two_todos)).
  reflexivity.
Defined.

Lemma accepted_file_witness :
  contentType report = file_type report /\
  includes ALLOWED_MIME_TYPES (file_type report) = true /\
  file_size report <= 52428800 /\
  (String.length (file_name report) <= 250)%nat.
Proof. apply (accepted_file report). reflexivity. Defined.

Lemma uploadFile_stores_witness :
  exists st',
    uploadFile calm report "parent" empty_bucket =
      (Resolved ("parent" ++ "/" ++ v7 calm (named empty_bucket) ++ "." ++
                 fileExtension (file_name report))%string, st') /\
    object_at ("parent" ++ "/" ++ v7 calm (named empty_bucket) ++ "." ++
               fileExtension (file_name report))%string st' =
      Some {| Body := file_content report; ContentType := contentType report |} /\
    forall k,
      k <> ("parent" ++ "/" ++ v7 calm (named empty_bucket) ++ "." ++
            fileExtension (file_name report))%string ->
      object_at k st' = object_at k empty_bucket.
Proof.
  apply (uploadFile_stores calm report "parent" empty_bucket). reflexivity.
Defined.

Lemma uploadFile_fails_witness :
  fst (uploadFile flaky report "parent" used_bucket) =
    Rejected (Unavailable "timeout") /\
  objects (snd (uploadFile flaky report "parent" used_bucket)) =
    objects used_bucket.
Proof.
  apply (uploadFile_fails flaky report "parent" used_bucket). reflexivity.
Defined.

Lemma deleteFile_after_uploadFile_witness :
  exists path st1 st2,
    uploadFile calm report "parent" empty_bucket = (Resolved path, st1) /\
    deleteFile calm path st1 = (Resolved tt, st2) /\
    object_at path st2 = None /\
    forall k, k <> path -> object_at k st2 = object_at k empty_bucket.
Proof.
  apply (deleteFile_after_uploadFile calm report "parent" empty_bucket);
    reflexivity.
Defined.

Lemma listRoute_narrows_witness :
  exists p1 p2,
    fst (listRoute limits100 calm
           {| raw_pageNumber := Missing; raw_pageSize := Missing;
              raw_name := Some "o"%string |} two_todos)
      = Resolved (json_page p1 OK) /\
    fst (listRoute limits100 calm
           {| raw_pageNumber := Missing; raw_pageSize := Missing;
              raw_name := Some ("o" ++ "g")%string |} two_todos)
      = Resolved (json_page p2 OK) /\
    totalCount p2 <= totalCount p1.
Proof.
  apply (listRoute_narrows bool limits100 calm Missing Missing "o" "g" two_todos
           {| list_pageNumber := 1; list_pageSize := 10;
              list_name := Some "o"%string |}); reflexivity.
Defined.

Lemma listRoute_percent_counts_all_witness :
  exists p,
    fst (listRoute limits100 calm (page_query 1 10 (Some "%%"%string)) two_todos)
      = Resolved (json_page p OK) /\
    totalCount p = Z.of_nat (List.length (rows two_todos)).
Proof.
  apply (listRoute_percent_counts_all bool limits100 calm
           (page_query 1 10 (Some "%%"%string)) two_todos
           {| list_pageNumber := 1; list_pageSize := 10;
              list_name := Some "%%"%string |} "%%"); reflexivity.
Defined.

(** ** Where the key of a new row comes from *)

Section Adding.

Variable Others : Type.
Implicit Types (w : World Others) (env : Env).


End Adding.


